(** * OpenLane 2 configuration resolution: [openlane/config/config.py]

    A shallow embedding of [Config.process_variable_list] and of the load
    pipeline ([Config.load], [_loads], [_load_dict], [_loads_tcl],
    [_get_pdk_config]) together with the properties of the validator and
    of the legacy-key migrations.

    Python objects live in a store: lists, dictionaries and class
    instances are reached through references, so that two bindings of one
    object (the receiver's ["MACROS"] and the working copy's) are seen to
    share it.  Exceptions are results; code that the file imports but
    does not define (variable specifications, the Tcl evaluator, the
    resolver, the file system) is an explicit argument. *)

From stdpp Require Import base option list gmap strings sorting.
From Stdlib Require Import ZArith QArith Qcanon Ascii String DecimalString.

Open Scope string_scope.
Open Scope Z_scope.

(** ** Strings as Python uses them *)

Module PyStr.

Definition chars (s : string) : list ascii := list_ascii_of_string s.
Definition of_chars (l : list ascii) : string := string_of_list_ascii l.

(** [pat in s] *)
Fixpoint contains (pat s : string) : bool :=
  String.prefix pat s ||
  match s with
  | EmptyString => false
  | String _ s' => contains pat s'
  end.

(** [s.endswith(suf)] *)
Definition endswith (s suf : string) : bool :=
  String.prefix (of_chars (rev (chars suf))) (of_chars (rev (chars s))).

(** [s.split(sep, 1)] for a one-character separator: the text before the
    first [sep] and the text after it, or [None] when [sep] does not
    occur (the result then has one element only). *)
Fixpoint split_once (sep : ascii) (s : string) : option (string * string) :=
  match s with
  | EmptyString => None
  | String c s' =>
      if Ascii.eqb c sep then Some (EmptyString, s')
      else match split_once sep s' with
           | Some (k, v) => Some (String c k, v)
           | None => None
           end
  end.

(** [s.split(sep)] for a one-character separator: never empty, empty
    fields are kept. *)
Fixpoint split (sep : ascii) (s : string) : list string :=
  match s with
  | EmptyString => [EmptyString]
  | String c s' =>
      if Ascii.eqb c sep then EmptyString :: split sep s'
      else match split sep s' with
           | w :: ws => String c w :: ws
           | [] => [String c EmptyString]
           end
  end.

(** [str(z)] for an [int] that has a text *)
Definition of_Z (z : Z) : string := NilZero.string_of_int (Z.to_int z).

(** The interpreter reads no text of more than [int_max_str_digits]
    digits as an [int] and writes no [int] of more digits as a text: both
    are a [ValueError].  The number is the default of CPython 3.11. *)
Definition int_max_str_digits : Z := 4300.

(** [str(z)], and [z] inside an f-string: [None] is that [ValueError]. *)
Definition str_int (z : Z) : option string :=
  if Z.of_nat (String.length (of_Z (Z.abs z))) <=? int_max_str_digits
  then Some (of_Z z) else None.

(** *** Code points

    A text is held as the bytes of its UTF-8 form, so that a literal of
    this file is the text it shows.  [code_points] reads the code points
    back; bytes that are not of that form stand for no text. *)

Definition continuation (c : ascii) : option N :=
  let b := N_of_ascii c in
  if (128 <=? b)%N && (b <? 192)%N then Some (b - 128)%N else None.

Fixpoint code_points (l : list ascii) : option (list N) :=
  match l with
  | [] => Some []
  | c :: l1 =>
      let b := N_of_ascii c in
      if (b <? 128)%N then cons b <$> code_points l1
      else if (b <? 192)%N then None
      else if (b <? 224)%N then
        match l1 with
        | c1 :: l2 =>
            match continuation c1 with
            | Some x1 =>
                let cp := ((b - 192) * 64 + x1)%N in
                if (cp <? 128)%N then None else cons cp <$> code_points l2
            | None => None
            end
        | _ => None
        end
      else if (b <? 240)%N then
        match l1 with
        | c1 :: c2 :: l3 =>
            match continuation c1, continuation c2 with
            | Some x1, Some x2 =>
                let cp := (((b - 224) * 64 + x1) * 64 + x2)%N in
                if (cp <? 2048)%N then None else cons cp <$> code_points l3
            | _, _ => None
            end
        | _ => None
        end
      else if (b <? 248)%N then
        match l1 with
        | c1 :: c2 :: c3 :: l4 =>
            match continuation c1, continuation c2, continuation c3 with
            | Some x1, Some x2, Some x3 =>
                let cp := ((((b - 240) * 64 + x1) * 64 + x2) * 64 + x3)%N in
                if (cp <? 65536)%N || (1114111 <? cp)%N then None
                else cons cp <$> code_points l4
            | _, _, _ => None
            end
        | _ => None
        end
      else None
  end.

(** White space beyond ASCII, as [int] and [str.isspace] know it. *)
Definition is_unicode_space (cp : N) : bool :=
  existsb (N.eqb cp) [133; 160; 5760; 8232; 8233; 8239; 8287; 12288]%N ||
  ((8192 <=? cp)%N && (cp <=? 8202)%N).

(** The digit zero of every script with decimal digits; the digits one
    to nine follow each.  This is the table of Unicode 14.0, the one that
    CPython 3.11 carries. *)
Definition decimal_zeros : list N :=
  [48; 1632; 1776; 1984; 2406; 2534; 2662; 2790;
   2918; 3046; 3174; 3302; 3430; 3558; 3664; 3792;
   3872; 4160; 4240; 6112; 6160; 6470; 6608; 6784;
   6800; 6992; 7088; 7232; 7248; 42528; 43216; 43264;
   43472; 43504; 43600; 44016; 65296; 66720; 68912; 69734;
   69872; 69942; 70096; 70384; 70736; 70864; 71248; 71360;
   71472; 71904; 72016; 72784; 73040; 73120; 92768; 92864;
   93008; 120782; 120792; 120802; 120812; 120822; 123200; 123632;
   125264; 130032]%N.

(** [unicodedata.decimal]: the value of a decimal digit *)
Definition decimal (cp : N) : option N :=
  match List.find (λ zero, (zero <=? cp)%N && (cp <? zero + 10)%N) decimal_zeros with
  | Some zero => Some (cp - zero)%N
  | None => None
  end.

(** What [int] makes of a code point before it reads the text: a code
    point below 127 is kept, white space becomes a space and a decimal
    digit its ASCII digit; any other code point is not read. *)
Definition to_ascii (cp : N) : option ascii :=
  if (cp <? 127)%N then Some (ascii_of_N cp)
  else if is_unicode_space cp then Some " "%char
  else match decimal cp with
       | Some d => Some (ascii_of_N (48 + d))
       | None => None
       end.

(** *** [int(s)] in base ten

    Surrounding white space is dropped, one sign is allowed, and digits
    may be grouped by single underscores. *)

Definition is_space (c : ascii) : bool :=
  let n := nat_of_ascii c in
  ((9 <=? n) && (n <=? 13) || (n =? 32))%nat.

Definition digit (c : ascii) : option Z :=
  let n := nat_of_ascii c in
  if ((48 <=? n) && (n <=? 57))%nat then Some (Z.of_nat n - 48) else None.

Definition is_digit (c : ascii) : bool :=
  if digit c is Some _ then true else false.

Fixpoint lstrip (l : list ascii) : list ascii :=
  match l with
  | c :: l' => if is_space c then lstrip l' else l
  | [] => []
  end.

Definition strip (l : list ascii) : list ascii :=
  rev (lstrip (rev (lstrip l))).

(** [digits acc prev l]: [prev] tells whether the previous character was
    a digit, which is what an underscore and the end need. *)
Fixpoint digits (acc : Z) (prev : bool) (l : list ascii) : option Z :=
  match l with
  | [] => if prev then Some acc else None
  | c :: l' =>
      match digit c with
      | Some d => digits (10 * acc + d) true l'
      | None =>
          if Ascii.eqb c "_" && prev then
            match l' with
            | c' :: _ => if digit c' is Some _ then digits acc false l' else None
            | [] => None
            end
          else None
      end
  end.

(** The number that a text of ASCII characters writes *)
Definition number (l : list ascii) : option Z :=
  match strip l with
  | c :: l' =>
      if Ascii.eqb c "-" then Z.opp <$> digits 0 false l'
      else if Ascii.eqb c "+" then digits 0 false l'
      else digits 0 false (c :: l')
  | [] => None
  end.

(** [int(s)]: [None] is a [ValueError]. *)
Definition to_Z (s : string) : option Z :=
  match code_points (chars s) with
  | Some cps =>
      match mapM to_ascii cps with
      | Some l =>
          match number l with
          | Some z =>
              if Z.of_nat (List.length (List.filter is_digit l)) <=? int_max_str_digits
              then Some z else None
          | None => None
          end
      | None => None
      end
  | None => None
  end.

End PyStr.


(** ** Values and the object store *)

Definition loc := positive.

(** A [float]: a finite one is told by its value, an infinite one by its
    sign, and a NaN by the object it is, as a NaN equals nothing, not
    even itself. *)
Inductive PyFloat :=
| Finite (q : Qc)
| Infinity (negative : bool)
| NaN (id : positive).

(** A Python value: scalars are immediate, lists, dictionaries and class
    instances are references into the store.  [VDec] is a finite
    [Decimal] (the JSON loader reads every number with a fraction or an
    exponent as one, and the constants [Infinity] and [NaN] as floats),
    [VPath] is OpenLane's [Path], a [UserString]. *)
Inductive Value :=
| VNone
| VBool (b : bool)
| VInt (z : Z)
| VDec (q : Qc)
| VStr (s : string)
| VPath (s : string)
| VRef (l : loc)
| VFloat (x : PyFloat).

Inductive Obj :=
| OList (items : list Value)
| ODict (entries : list (Value * Value))
| OInst (cls : string) (attrs : list (string * Value)).

Abbreviation Heap := (gmap loc Obj).

(** A [GenericDict] / [Config] with string keys: what a JSON object or a
    Tcl environment gives, and what line 708 asserts. *)
Abbreviation Dict := (gmap string Value).

Global Instance PyFloat_eq_dec : EqDecision PyFloat.
Proof. solve_decision. Defined.

Global Instance Value_eq_dec : EqDecision Value.
Proof. solve_decision. Defined.

Global Instance Obj_eq_dec : EqDecision Obj.
Proof. solve_decision. Defined.

(** What the program does to the world outside the interpreter. *)
Inductive Event :=
| EvOpen (path : string)      (* open(path).read() *)
| EvIsDir (path : string)     (* os.path.isdir(path) *)
| EvExists (path : string)    (* os.path.exists(path) *)
| EvGlob (pattern : string)   (* glob(pattern) *)
| EvTcl (script : string)     (* env_from_tcl(_, script) *)
| EvWarn (msg : string)       (* logging.warn *)
| EvInfo (msg : string).      (* logging.info *)

Inductive Exn :=
| ValueError (msg : string)
| TypeError (msg : string)
| OverflowError (msg : string)
| KeyError (key : string)
| IndexError
| AttributeError (attr : string)
| AssertionError (msg : string)
| OSError (path : string)
| InvalidConfig (config : string) (warnings errors : list string).

Record World := { heap : Heap; trace : list Event }.

(** ** The monad of Python statements: a store, a trace, an exception *)

Definition Py (A : Type) : Type := World → World * (Exn + A).

Global Instance Py_ret : MRet Py := λ A x w, (w, inr x).

Global Instance Py_bind : MBind Py := λ A B f m w,
  match m w with
  | (w', inl e) => (w', inl e)
  | (w', inr a) => f a w'
  end.

Definition raise {A} (e : Exn) : Py A := λ w, (w, inl e).

Definition emit (ev : Event) : Py unit :=
  λ w, ({| heap := heap w; trace := trace w ++ [ev] |}, inr tt).

Definition get_heap : Py Heap := λ w, (w, inr (heap w)).

Definition put_heap (h : Heap) : Py unit :=
  λ w, ({| heap := h; trace := trace w |}, inr tt).

(** A new object gets an address that no object has. *)
Definition alloc (o : Obj) : Py loc :=
  h ← get_heap;
  let l := fresh (dom h) in
  put_heap (<[l := o]> h);; mret l.

(** [for x in xs: body], threading the loop's variables *)
Fixpoint for_each {A S} (xs : list A) (body : A → S → Py S) (s : S) : Py S :=
  match xs with
  | [] => mret s
  | x :: xs' => s' ← body x s; for_each xs' body s'
  end.

(** ** Python's built-in operations, as far as the module uses them *)

(** [bool(v)], as [or] reads it *)
Definition truthy (h : Heap) (v : Value) : bool :=
  match v with
  | VNone => false
  | VBool b => b
  | VInt z => negb (z =? 0)
  | VDec q | VFloat (Finite q) => negb (Qnum q =? 0)
  | VFloat _ => true
  | VStr s | VPath s => negb (String.eqb s "")
  | VRef l =>
      match h !! l with
      | Some (OList items) => negb (bool_decide (items = []))
      | Some (ODict entries) => negb (bool_decide (entries = []))
      | _ => true
      end
  end.

(** [type(v)] inside an f-string *)
Definition type_repr (h : Heap) (v : Value) : string :=
  let cls :=
    match v with
    | VNone => "NoneType"
    | VBool _ => "bool"
    | VInt _ => "int"
    | VDec _ => "decimal.Decimal"
    | VFloat _ => "float"
    | VStr _ => "str"
    | VPath _ => "openlane.state.Path"
    | VRef l =>
        match h !! l with
        | Some (OList _) => "list"
        | Some (ODict _) => "dict"
        | Some (OInst cls _) => cls
        | None => "object"
        end
    end in
  "<class '" ++ cls ++ "'>".

(** What [try: dis = int(dis) except ValueError: pass] leaves in [dis]:
    an [int], or the value that [int] refused with a [ValueError], a text
    or a NaN, of which only the text that an f-string shows is read
    afterwards.  A number is cut towards zero.  A value that [int] does
    not take at all raises [TypeError] and an infinite float raises
    [OverflowError]; nothing catches these. *)
Inductive Coerced :=
| AsInt (z : Z)
| StillText (s : string).

Definition int_or_keep (dis : Value) : Exn + Coerced :=
  match dis with
  | VBool b => inr (AsInt (if b then 1 else 0))
  | VInt z => inr (AsInt z)
  | VDec q | VFloat (Finite q) => inr (AsInt (Z.quot (Qnum q) (Z.pos (Qden q))))
  | VFloat (Infinity _) => inl (OverflowError "cannot convert float infinity to integer")
  | VFloat (NaN _) => inr (StillText "nan")
  | VStr s | VPath s =>
      match PyStr.to_Z s with
      | Some z => inr (AsInt z)
      | None => inr (StillText s)
      end
  | VNone | VRef _ =>
      inl (TypeError "int() argument must be a string, a bytes-like object or a real number")
  end.

(** [z in [a, b, c]] *)
Definition Z_in (z : Z) (l : list Z) : bool := existsb (Z.eqb z) l.
Global Arguments Z_in : simpl never.

(** *** Keys of a [dict] object

    Two keys are one key when they hash and compare equal: numbers by
    value across [bool], [int], [float] and [Decimal], texts by their
    characters, instances and NaNs by identity.  Lists and dictionaries
    do not hash. *)
Inductive HashKey :=
| KNone
| KNum (q : Qc)
| KText (s : string)
| KId (l : loc)
| KInf (negative : bool)
| KNaN (id : positive).

Global Instance HashKey_eq_dec : EqDecision HashKey.
Proof. solve_decision. Defined.

Definition hash_key (v : Value) : HashKey :=
  match v with
  | VNone => KNone
  | VBool b => KNum (Q2Qc (inject_Z (if b then 1 else 0)))
  | VInt z => KNum (Q2Qc (inject_Z z))
  | VDec q | VFloat (Finite q) => KNum q
  | VFloat (Infinity negative) => KInf negative
  | VFloat (NaN id) => KNaN id
  | VStr s | VPath s => KText s
  | VRef l => KId l
  end.

Definition hashable (h : Heap) (v : Value) : bool :=
  match v with
  | VRef l => match h !! l with Some (OInst _ _) => true | _ => false end
  | _ => true
  end.

(** [d[k] = v] on the entries of a [dict]: an equal key keeps its place
    and its key object, a new key goes last. *)
Fixpoint dict_set (entries : list (Value * Value)) (k v : Value) : list (Value * Value) :=
  match entries with
  | [] => [(k, v)]
  | (k', v') :: rest =>
      if decide (hash_key k' = hash_key k) then (k', v) :: rest
      else (k', v') :: dict_set rest k v
  end.

Fixpoint dict_get (entries : list (Value * Value)) (k : Value) : option Value :=
  match entries with
  | [] => None
  | (k', v') :: rest =>
      if decide (hash_key k' = hash_key k) then Some v' else dict_get rest k
  end.

(** [l[i] = v] on a list: negative indices count from the end. *)
Definition list_set (items : list Value) (i : Z) (v : Value) : option (list Value) :=
  let n := Z.of_nat (List.length items) in
  let j := if i <? 0 then i + n else i in
  if (0 <=? j) && (j <? n) then Some (<[Z.to_nat j := v]> items) else None.

(** [target[key] = value] *)
Definition setitem (target key value : Value) : Py unit :=
  h ← get_heap;
  match target with
  | VRef l =>
      match h !! l with
      | Some (ODict entries) =>
          if hashable h key then put_heap (<[l := ODict (dict_set entries key value)]> h)
          else raise (TypeError "unhashable type")
      | Some (OList items) =>
          match key with
          | VInt _ | VBool _ =>
              let i := match key with VInt z => z | VBool true => 1 | _ => 0 end in
              match list_set items i value with
              | Some items' => put_heap (<[l := OList items']> h)
              | None => raise IndexError
              end
          | _ => raise (TypeError "list indices must be integers or slices")
          end
      | _ => raise (TypeError "object does not support item assignment")
      end
  | _ => raise (TypeError "object does not support item assignment")
  end.

(** [obj.attr] and [obj.attr = value] on a class instance *)
Fixpoint attr_get (attrs : list (string * Value)) (a : string) : option Value :=
  match attrs with
  | [] => None
  | (a', v) :: rest => if String.eqb a' a then Some v else attr_get rest a
  end.

Fixpoint attr_set (attrs : list (string * Value)) (a : string) (v : Value) : list (string * Value) :=
  match attrs with
  | [] => [(a, v)]
  | (a', v') :: rest =>
      if String.eqb a' a then (a', v) :: rest else (a', v') :: attr_set rest a v
  end.

(** ** What the module imports *)

(** Modelled from the spec: the class [Keys] of [openlane/config/resolve.py]
    (imported as [SpecialKeys]) is not among the sources.  The spec names
    the special keys: technology name, technology root, library name and
    design directory; their texts are the ones [config.py] itself uses. *)
Module SpecialKeys.
Definition pdk_root : string := "PDK_ROOT".
Definition pdk : string := "PDK".
Definition scl : string := "STD_CELL_LIBRARY".
Definition design_dir : string := "DESIGN_DIR".
(** [vars(SpecialKeys).values()], as far as it holds key names *)
Definition values : list string := [pdk_root; pdk; scl; design_dir].
End SpecialKeys.

(** Modelled from the spec: [Variable.compile] of
    [openlane/config/variable.py] is not among the sources.  The spec
    gives its contract: from the working set and the values finalized so
    far it produces the consumed raw key (if any) and a normalized value,
    or fails with a descriptive error ([ValueError]).  It is handed the
    warning list, to which it may append, and it may build objects. *)
Inductive Compiled :=
| CompileOk (key : option string) (value_processed : Value)
| CompileError (msg : string).

Record ConfigVariable := {
  name : string;
  compile : Heap → Dict → Dict → Heap * list string * Compiled
}.

(** ** [Config.process_variable_list] *)

(** The local variables of the method. *)
Record Locals := {
  warnings : list string;
  errors : list string;
  final : Dict;
  mutable : Dict;
  translated_macros : bool
}.

Definition set_mutable (m : Dict) (st : Locals) : Locals :=
  {| warnings := warnings st; errors := errors st; final := final st;
     mutable := m; translated_macros := translated_macros st |}.

Definition set_final (f : Dict) (st : Locals) : Locals :=
  {| warnings := warnings st; errors := errors st; final := f;
     mutable := mutable st; translated_macros := translated_macros st |}.

Definition append_warnings (ws : list string) (st : Locals) : Locals :=
  {| warnings := warnings st ++ ws; errors := errors st; final := final st;
     mutable := mutable st; translated_macros := translated_macros st |}.

Definition append_error (e : string) (st : Locals) : Locals :=
  {| warnings := warnings st; errors := errors st ++ [e]; final := final st;
     mutable := mutable st; translated_macros := translated_macros st |}.

Definition set_translated_macros (b : bool) (st : Locals) : Locals :=
  {| warnings := warnings st; errors := errors st; final := final st;
     mutable := mutable st; translated_macros := b |}.

(** Lines 619-625: [mutable = self.copy()] binds the receiver's values
    again, it does not copy the objects they refer to. *)
Definition initial (self : Dict) : Locals :=
  {| warnings := []; errors := []; final := ∅; mutable := self;
     translated_macros := false |}.

(** [d.get(k) is not None] *)
Definition get_not_None (d : Dict) (k : string) : option Value :=
  match d !! k with
  | Some VNone | None => None
  | Some v => Some v
  end.

(** *** Lines 628-653: the diode insertion strategy *)

Definition dis_unavailable (shown : string) : string :=
  "DIODE_INSERTION_STRATEGY '" ++ shown ++
  "' is not available in OpenLane 2. See 'Migrating DIODE_INSERTION_STRATEGY' in the docs for more info.".

(** What line 639 raises for an [int] that has no text. *)
Definition dis_too_long : Exn :=
  ValueError "Exceeds the limit (4300 digits) for integer string conversion; use sys.set_int_max_str_digits() to increase the limit".

Definition dis_deprecated : string :=
  "The DIODE_INSERTION_STRATEGY variable has been deprecated. See 'Migrating DIODE_INSERTION_STRATEGY' in the docs for more info.".

(** Lines 646-653 *)
Definition strategy_keys (dis : Z) (final : Dict) : Dict :=
  let final := <["GRT_REPAIR_ANTENNAS" := VBool false]> final in
  let final := <["RUN_HEURISTIC_DIODE_INSERTION" := VBool false]> final in
  let final := <["DIODE_ON_PORTS" := VStr "none"]> final in
  let final :=
    if Z_in dis [3; 6] then <["GRT_REPAIR_ANTENNAS" := VBool true]> final
    else final in
  if Z_in dis [5; 6] then
    <["DIODE_ON_PORTS" := VStr "in"]>
      (<["RUN_HEURISTIC_DIODE_INSERTION" := VBool true]> final)
  else final.

Definition migrate_diode_insertion_strategy (st : Locals) : Py Locals :=
  match get_not_None (mutable st) "DIODE_INSERTION_STRATEGY" with
  | None => mret st
  | Some dis =>
      let st := set_mutable (delete "DIODE_INSERTION_STRATEGY" (mutable st)) st in
      match int_or_keep dis with
      | inl e => raise e
      | inr (StillText s) => mret (append_error (dis_unavailable s) st)
      | inr (AsInt dis) =>
          if Z_in dis [1; 2; 5] || (6 <? dis) then
            match PyStr.str_int dis with
            | Some text => mret (append_error (dis_unavailable text) st)
            | None => raise dis_too_long
            end
          else
            let st := append_warnings [dis_deprecated] st in
            mret (set_final (strategy_keys dis (final st)) st)
      end
  end.

(** *** Lines 656-692: the flat list ["EXTRA_SPEFS"] *)

Definition spef_invalid_type (ty : string) : string :=
  "Invalid type for 'EXTRA_SPEFS': " ++ ty ++
  ". It is recommended that you update your configuration to use the Macro object.".

Definition spef_invalid_count : string :=
  "Invalid value for 'EXTRA_SPEFS': Element count not divisible by four. It is recommended that you update your configuration to use the Macro object.".

Definition spef_deprecated : string :=
  "The configuration variable 'EXTRA_SPEFS' is deprecated. Check the docs on how to use the new 'MACROS' configuration variable.".

(** Lines 662-665: a [str] is split at single spaces, a [list] is taken as
    it is, anything else is not a list. *)
Definition as_spef_list (h : Heap) (extra_spef_list : Value) : option (list Value) :=
  match extra_spef_list with
  | VStr s => Some (VStr <$> PyStr.split " " s)
  | VRef l =>
      match h !! l with
      | Some (OList items) => Some items
      | _ => None
      end
  | _ => None
  end.

(** Lines 678-685: the elements [4i .. 4i+3] for [i] below [len // 4]. *)
Fixpoint quadruples (l : list Value) : list (Value * Value * Value * Value) :=
  match l with
  | module :: min :: nom :: max :: rest => (module, min, nom, max) :: quadruples rest
  | _ => []
  end.

(** Lines 686-691 *)
Definition new_macro_dict (module min nom max : Value) : Py Value :=
  gds ← alloc (OList [VStr "/dev/null"]);
  macro_dict ← alloc (ODict [(VStr "module", module); (VStr "gds", VRef gds)]);
  lmin ← alloc (OList [min]);
  lnom ← alloc (OList [nom]);
  lmax ← alloc (OList [max]);
  spef ← alloc (ODict [(VStr "min_*", VRef lmin); (VStr "nom_*", VRef lnom);
                       (VStr "max_*", VRef lmax)]);
  setitem (VRef macro_dict) (VStr "spef") (VRef spef);;
  mret (VRef macro_dict).

(** Lines 679-692: one turn of the loop *)
Definition translate_quadruple (q : Value * Value * Value * Value) (st : Locals) : Py Locals :=
  let '(module, min, nom, max) := q in
  macro_dict ← new_macro_dict module min nom max;
  match mutable st !! "MACROS" with
  | Some macros => setitem macros module macro_dict;; mret st
  | None => raise (KeyError "MACROS")
  end.

(** Lines 658-661: ["MACROS"] is bound to what it was bound to, or to a
    new dictionary when that is false, and ["EXTRA_SPEFS"] is taken out. *)
Definition spefs_taken (macros : Value) (st : Locals) : Locals :=
  set_mutable (delete "EXTRA_SPEFS" (<["MACROS" := macros]> (mutable st))) st.

Definition take_extra_spefs (st : Locals) : Py Locals :=
  h ← get_heap;
  macros ← match mutable st !! "MACROS" with
           | Some v => if truthy h v then mret v
                       else l ← alloc (ODict []); mret (VRef l)
           | None => l ← alloc (ODict []); mret (VRef l)
           end;
  mret (spefs_taken macros st).

(** Lines 662-692 *)
Definition translate_extra_spefs (extra_spef_list : Value) (st : Locals) : Py Locals :=
  h ← get_heap;
  match as_spef_list h extra_spef_list with
  | None => mret (append_error (spef_invalid_type (type_repr h extra_spef_list)) st)
  | Some items =>
      if negb (Z.of_nat (List.length items) mod 4 =? 0) then
        mret (append_error spef_invalid_count st)
      else
        let st := set_translated_macros true st in
        let st := append_warnings [spef_deprecated] st in
        for_each (quadruples items) translate_quadruple st
  end.

Definition migrate_extra_spefs (st : Locals) : Py Locals :=
  match get_not_None (mutable st) "EXTRA_SPEFS" with
  | None => mret st
  | Some extra_spef_list =>
      st ← take_extra_spefs st;
      translate_extra_spefs extra_spef_list st
  end.

(** *** Lines 694-705: every variable is compiled *)

Definition compile_variable (variable : ConfigVariable) (st : Locals) : Py Locals :=
  h ← get_heap;
  let '(h', appended, result) := compile variable h (mutable st) (final st) in
  put_heap h';;
  let st := append_warnings appended st in
  match result with
  | CompileOk key value_processed =>
      st ← match key with
           | Some key =>
               (* del mutable[key] *)
               if decide (is_Some (mutable st !! key))
               then mret (set_mutable (delete key (mutable st)) st)
               else raise (KeyError key)
           | None => mret st
           end;
      mret (set_final (<[name variable := value_processed]> (final st)) st)
  | CompileError msg => mret (append_error msg st)
  end.

(** *** Lines 707-715: the keys that are left *)

Definition String_le (a b : string) : Prop := String.leb a b = true.

Global Instance String_le_dec a b : Decision (String_le a b).
Proof. unfold String_le. apply _. Defined.

(** [sorted(mutable.keys())] *)
Definition sorted_keys (d : Dict) : list string :=
  merge_sort String_le (map_to_list d).*1.

Definition removed_warning (key note : string) : string :=
  "'" ++ key ++ "' has been removed: " ++ note.

Definition unknown_warning (key : string) : string :=
  "Unknown key '" ++ key ++ "' provided.".

Definition leftover_warning (removed : gmap string string) (key : string) : list string :=
  if bool_decide (key ∈ SpecialKeys.values) then []
  else match removed !! key with
       | Some note => [removed_warning key note]
       | None =>
           if negb (PyStr.contains "_OPT" key) && negb (String.eqb key "//")
           then [unknown_warning key]
           else []
       end.

Definition leftover_warnings (removed : gmap string string) (mutable : Dict) : list string :=
  sorted_keys mutable ≫= leftover_warning removed.

Definition report_leftover_keys (removed : gmap string string) (st : Locals) : Locals :=
  append_warnings (leftover_warnings removed (mutable st)) st.

(** *** Lines 717-720: the placeholder of translated macros *)

(** [macro.gds == "/dev/null"]: a [str] or a [Path] with that text *)
Definition is_dev_null (gds : Value) : bool :=
  match gds with
  | VStr s | VPath s => String.eqb s "/dev/null"
  | _ => false
  end.

Definition normalize_gds (macro : Value) (_ : unit) : Py unit :=
  h ← get_heap;
  match macro with
  | VRef m =>
      match h !! m with
      | Some (OInst cls attrs) =>
          match attr_get attrs "gds" with
          | Some gds =>
              if is_dev_null gds
              then put_heap (<[m := OInst cls (attr_set attrs "gds" (VPath ""))]> h)
              else mret tt
          | None => raise (AttributeError "gds")
          end
      | _ => raise (AttributeError "gds")
      end
  | _ => raise (AttributeError "gds")
  end.

Definition normalize_macros (st : Locals) : Py unit :=
  if translated_macros st then
    h ← get_heap;
    match final st !! "MACROS" with
    | None => raise (KeyError "MACROS")
    | Some (VRef l) =>
        match h !! l with
        | Some (ODict entries) => for_each entries.*2 normalize_gds tt
        | _ => raise (AttributeError "values")
        end
    | Some _ => raise (AttributeError "values")
    end
  else mret tt.

(** *** The method *)

(** Lines 627-692, the "special deprecation behaviors" *)
Definition migrate_legacy_keys (st : Locals) : Py Locals :=
  st ← migrate_diode_insertion_strategy st;
  migrate_extra_spefs st.

(** Lines 694-705 *)
Definition compile_variables (variables : list ConfigVariable) (st : Locals) : Py Locals :=
  for_each variables compile_variable st.

Definition process_variable_list (self : Dict) (variables : list ConfigVariable)
    (removed : option (gmap string string)) : Py (Dict * list string * list string) :=
  let removed := default ∅ removed in
  st ← migrate_legacy_keys (initial self);
  st ← compile_variables variables st;
  let st := report_leftover_keys removed st in
  normalize_macros st;;
  mret (final st, warnings st, errors st).

(** ** The load pipeline *)

(** [Meta] (lines 48-51) *)
Record Meta := { version : Value; flow : Value }.

Definition Meta_default : Meta := {| version := VInt 1; flow := VStr "Classic" |}.

(** A [Config]: its mapping and its [meta] attribute.  [Config(d)] gets
    [Meta(version=1)] (lines 103-109). *)
Record Config := { data : Dict; meta : Meta }.

Definition Config_of (d : Dict) : Config := {| data := d; meta := Meta_default |}.

(** [Config(base, overrides=o)]: the bindings of [o] win. *)
Definition Config_overrides (base o : Dict) : Config := Config_of (o ∪ base).

(** [Meta] called with the entries of [meta_raw] as keywords: the
    generated constructor takes the keywords
    [version] and [flow] and nothing else; what is not a mapping of such
    keywords is a [TypeError], whose text is the interpreter's. *)
Fixpoint Meta_fill (entries : list (Value * Value)) (m : Meta) : string + Meta :=
  match entries with
  | [] => inr m
  | (VStr k, v) :: rest =>
      if String.eqb k "version" then Meta_fill rest {| version := v; flow := flow m |}
      else if String.eqb k "flow" then Meta_fill rest {| version := version m; flow := v |}
      else inl ("__init__() got an unexpected keyword argument '" ++ k ++ "'")
  | _ => inl "keywords must be strings"
  end.

Definition Meta_of_raw (h : Heap) (meta_raw : Value) : string + Meta :=
  match meta_raw with
  | VRef l =>
      match h !! l with
      | Some (ODict entries) => Meta_fill entries Meta_default
      | _ => inl "argument after ** must be a mapping"
      end
  | _ => inl "argument after ** must be a mapping"
  end.

(** Code that runs outside this module and may build objects or fail. *)
Definition Ext (A : Type) : Type := Heap → Heap * (Exn + A).

Definition call {A} (f : Ext A) : Py A :=
  λ w, let '(h, r) := f (heap w) in ({| heap := h; trace := trace w |}, r).

(** What [config.py] imports and the operating system it runs on.
    [volare_home] is [None] when [import volare] fails. *)
Record Outside := {
  abspath : string → string;
  dirname : string → string;
  basename : string → string;
  splitext : string → string * string;
  join : string → string → string;
  isdir : string → bool;
  path_exists : string → bool;
  glob : string → list string;
  file_text : string → option string;
  json_loads : string → Ext Dict;
  env_from_tcl : Dict → string → Ext Dict;
  resolve_process_info : Dict → string → Ext Dict;
  resolve : Dict → Value → string → Value → string → Ext Dict;
  migrate_old_config : Dict → Dict;
  volare_home : option (option string → string);
  pdk_variables : list ConfigVariable;
  removed_variables : gmap string string;
  pdk_removed_variables : gmap string string
}.

(** What [load] is given as [config_in]. *)
Inductive ConfigIn :=
| InDict (raw : Dict)
| InPath (path : string).

(** The arguments that [load] hands to its loader. *)
Record LoadArgs := {
  design_dir : string;
  flow_config_vars : list ConfigVariable;
  config_override_strings : list string;
  pdk_root : string;
  pdk : option string;
  scl : option string;
  full_pdk_warnings : bool
}.

Definition opt_str (o : option string) : Value :=
  match o with Some s => VStr s | None => VNone end.

(** A value where a path is wanted *)
Definition fspath (v : Value) : Py string :=
  match v with
  | VStr s | VPath s => mret s
  | _ => raise (TypeError "expected str, bytes or os.PathLike object")
  end.

Section Pipeline.
Context (out : Outside).

(** [open(path, encoding="utf8").read()] *)
Definition read_file (path : string) : Py string :=
  emit (EvOpen path);;
  match file_text out path with
  | Some text => mret text
  | None => raise (OSError path)
  end.

Definition warn (msg : string) : Py unit := emit (EvWarn msg).
Definition info (msg : string) : Py unit := emit (EvInfo msg).

Definition warn_all (msgs : list string) : Py unit :=
  for_each msgs (λ msg _, warn msg) tt.

(** Lines 513-524 *)
Definition _resolve_pdk_root (pdk_root : option string) : Py string :=
  match volare_home out with
  | Some get_volare_home => mret (abspath out (get_volare_home pdk_root))
  | None =>
      match pdk_root with
      | None => raise (ValueError "The pdk_root argument is required as Volare is not installed.")
      | Some pdk_root => mret (abspath out pdk_root)
      end
  end.

(** Lines 374-376 *)
Definition apply_override (string : string) (raw : Dict) : Py Dict :=
  match PyStr.split_once "=" string with
  | Some (key, value) => mret (<[key := VStr value]> raw)
  | None => raise (ValueError "not enough values to unpack (expected 2, got 1)")
  end.

(** [x.get(SpecialKeys.pdk) or pdk] *)
Definition pdk_or (h : Heap) (process_info : Dict) (pdk : option string) : Value :=
  match process_info !! SpecialKeys.pdk with
  | Some v => if truthy h v then v else opt_str pdk
  | None => opt_str pdk
  end.

Definition pdk_required : Exn :=
  ValueError "The pdk argument is required as the configuration object lacks a 'PDK' key.".

(** Lines 526-597 *)
Definition _get_pdk_config (pdk : Value) (scl : option string) (pdk_root : string)
    (full_pdk_warnings : bool) : Py (Config * string * Value) :=
  let pdk_config : Dict :=
    <[SpecialKeys.pdk := pdk]> (<[SpecialKeys.pdk_root := VStr pdk_root]> ∅) in
  let pdk_config :=
    match scl with
    | Some scl => <[SpecialKeys.scl := VStr scl]> pdk_config
    | None => pdk_config
    end in
  pdk_text ← fspath pdk;
  let pdkpath := join out pdk_root pdk_text in
  emit (EvExists pdkpath);;
  if negb (path_exists out pdkpath) then
    emit (EvGlob (pdkpath ++ "*"));;
    let matches := glob out (pdkpath ++ "*") in
    let errors := ["The PDK " ++ pdk_text ++ " was not found."] in
    let warnings :=
      (λ m, "A similarly-named PDK was found: " ++ basename out m) <$> matches in
    raise (InvalidConfig "PDK configuration" warnings errors)
  else
    let openlane_dir := join out (join out pdkpath "libs.tech") "openlane" in
    let pdk_config_path := join out openlane_dir "config.tcl" in
    text ← read_file pdk_config_path;
    emit (EvTcl text);;
    pdk_env ← call (env_from_tcl out pdk_config text);
    scl ← match pdk_env !! "STD_CELL_LIBRARY" with
          | Some VNone =>
              raise (AssertionError "Fatal error: STD_CELL_LIBRARY default value not set by PDK.")
          | Some scl => mret scl
          | None => raise (KeyError "STD_CELL_LIBRARY")
          end;
    scl_text ← fspath scl;
    let scl_config_path := join out (join out openlane_dir scl_text) "config.tcl" in
    text ← read_file scl_config_path;
    emit (EvTcl text);;
    scl_env ← call (env_from_tcl out pdk_env text);
    let scl_env := migrate_old_config out scl_env in
    '(config_in, pdk_warnings, pdk_errors) ←
      process_variable_list scl_env (pdk_variables out) (Some (pdk_removed_variables out));
    if negb (bool_decide (pdk_errors = [])) then
      raise (InvalidConfig "PDK configuration files" pdk_warnings pdk_errors)
    else
      (if negb (bool_decide (pdk_warnings = [])) && full_pdk_warnings then
         info "Loading the PDK configuration files has generated the following warnings:";;
         warn_all pdk_warnings
       else mret tt);;
      mret (Config_of config_in, pdkpath, scl).

(** Lines 419-431 and 499-511: the verdict on the design configuration *)
Definition deliver (config_in : Config) (design_warnings design_errors : list string)
    : Py Config :=
  if negb (bool_decide (design_errors = [])) then
    raise (InvalidConfig "design configuration file" design_warnings design_errors)
  else
    (if negb (bool_decide (design_warnings = [])) then
       info "Loading the design configuration file has generated the following warnings:"
     else mret tt);;
    warn_all design_warnings;;
    mret config_in.

(** Lines 413-417 *)
Definition attach_meta (h : Heap) (meta_raw : option Value) (config_in : Dict)
    (design_errors : list string) : Config * list string :=
  match meta_raw with
  | None => (Config_of config_in, design_errors)
  | Some meta_raw =>
      match Meta_of_raw h meta_raw with
      | inr m => ({| data := config_in; meta := m |}, design_errors)
      | inl e =>
          (Config_of config_in,
           (design_errors ++ [("'meta' object is invalid: " ++ e)%string])%list)
      end
  end.

(** Lines 408-431 and 494-511: the merged configuration is validated and
    the verdict is given; only [_load_dict] has a [meta_raw]. *)
Definition validate_design (meta_raw : option Value) (config_in : Dict) (a : LoadArgs)
    : Py Config :=
  '(config_in, design_warnings, design_errors) ←
    process_variable_list config_in
      (pdk_variables out ++ flow_config_vars a) (Some (removed_variables out));
  h ← get_heap;
  let '(config_in, design_errors) := attach_meta h meta_raw config_in design_errors in
  deliver config_in design_warnings design_errors.

(** Lines 355-431 *)
Definition _load_dict (raw : Dict) (a : LoadArgs) : Py Config :=
  let meta_raw := get_not_None raw "meta" in
  let raw := if meta_raw is Some _ then delete "meta" raw else raw in
  raw ← for_each (config_override_strings a) apply_override raw;
  process_info ← call (resolve_process_info out raw (design_dir a));
  h ← get_heap;
  let pdk := pdk_or h process_info (pdk a) in
  if decide (pdk = VNone) then raise pdk_required
  else
    '(config_in, pdkpath, _) ←
      _get_pdk_config pdk (scl a) (pdk_root a) (full_pdk_warnings a);
    scl ← match data config_in !! SpecialKeys.scl with
          | Some scl => mret scl
          | None => raise (KeyError SpecialKeys.scl)
          end;
    overrides ← call (resolve out raw pdk pdkpath scl (design_dir a));
    let config_in := Config_overrides (data config_in) overrides in
    validate_design meta_raw (data config_in) a.

(** Lines 339-353 *)
Definition _loads (json_str : string) (a : LoadArgs) : Py Config :=
  raw ← call (json_loads out json_str);
  _load_dict raw a.

(** Lines 433-511 *)
Definition _loads_tcl (config : string) (a : LoadArgs) : Py Config :=
  warn "Support for .tcl configuration files is deprecated. Please migrate to a .json file at your earliest convenience.";;
  pdk_root ← _resolve_pdk_root (Some (pdk_root a));
  let config_in : Dict :=
    <[SpecialKeys.pdk := opt_str (pdk a)]> (<[SpecialKeys.pdk_root := VStr pdk_root]> ∅) in
  let tcl_vars_in :=
    <[SpecialKeys.design_dir := VStr (design_dir a)]>
      (<[SpecialKeys.scl := VStr ""]> config_in) in
  emit (EvTcl config);;
  tcl_config ← call (env_from_tcl out tcl_vars_in config);
  process_info ← call (resolve_process_info out tcl_config (design_dir a));
  h ← get_heap;
  let pdk := pdk_or h process_info (pdk a) in
  if decide (pdk = VNone) then raise pdk_required
  else
    '(config_in, _, scl) ← _get_pdk_config pdk (scl a) pdk_root (full_pdk_warnings a);
    let tcl_vars_in :=
      <[SpecialKeys.design_dir := VStr (design_dir a)]>
        (<[SpecialKeys.scl := scl]> (<[SpecialKeys.pdk := pdk]> tcl_vars_in)) in
    emit (EvTcl config);;
    design_config ← call (env_from_tcl out tcl_vars_in config);
    let config_in := Config_overrides (data config_in) design_config in
    config_in ← for_each (config_override_strings a) apply_override (data config_in);
    validate_design None config_in a.

(** Lines 325-337: the part of [load] that all three loaders share *)
Definition run_loader (loader : LoadArgs → Py Config) (design_dir : string)
    (flow_config_vars : list ConfigVariable)
    (config_override_strings : option (list string))
    (pdk pdk_root scl : option string) : Py (Config * string) :=
  pdk_root ← _resolve_pdk_root pdk_root;
  loaded ← loader {| design_dir := design_dir;
                     flow_config_vars := flow_config_vars;
                     config_override_strings := default [] config_override_strings;
                     pdk_root := pdk_root; pdk := pdk; scl := scl;
                     full_pdk_warnings := false |};
  mret (loaded, design_dir).

(** Lines 247-337 *)
Definition load (config_in : ConfigIn) (flow_config_vars : list ConfigVariable)
    (config_override_strings : option (list string))
    (pdk pdk_root scl design_dir : option string) : Py (Config * string) :=
  match config_in with
  | InPath config_in =>
      match design_dir with
      | Some _ =>
          raise (TypeError "The argument design_dir is not supported when config_in is not a dictionary.")
      | None =>
          let config_in := abspath out config_in in
          let design_dir := dirname out config_in in
          if PyStr.endswith config_in ".json" then
            raw ← read_file config_in;
            run_loader (_loads raw) design_dir flow_config_vars
              config_override_strings pdk pdk_root scl
          else if PyStr.endswith config_in ".tcl" then
            raw ← read_file config_in;
            run_loader (_loads_tcl raw) design_dir flow_config_vars
              config_override_strings pdk pdk_root scl
          else
            emit (EvIsDir config_in);;
            if isdir out config_in then
              raise (ValueError "Passing design folders as arguments is unsupported in OpenLane 2.0+: please pass the JSON configuration file directly.")
            else
              raise (ValueError ("Unsupported configuration file extension '" ++
                                 (splitext out config_in).2 ++ "' for '" ++ config_in ++ "'."))
      end
  | InDict raw =>
      match design_dir with
      | None =>
          raise (TypeError "The argument design_dir is required when using attempting to load a Config with a dictionary.")
      | Some design_dir =>
          run_loader (_load_dict raw) design_dir flow_config_vars
            config_override_strings pdk pdk_root scl
      end
  end.

End Pipeline.

(** * Properties *)

(** ** The claims of the specification, as it words them *)

Definition strategy_key_names : list string :=
  ["GRT_REPAIR_ANTENNAS"; "RUN_HEURISTIC_DIODE_INSERTION"; "DIODE_ON_PORTS"].

(** What [int] made of the strategy is refused: 1, 2, 5, more than 6, or
    not an integer. *)
Definition refused (c : Coerced) : Prop :=
  match c with
  | AsInt z => z ∈ [1; 2; 5] ∨ 6 < z
  | StillText _ => True
  end.

(** The text that line 639 shows for it, if it has one. *)
Definition shown (c : Coerced) : option string :=
  match c with
  | AsInt z => PyStr.str_int z
  | StillText s => Some s
  end.

(** The two outcomes that the specification allows once the strategy key
    is present. *)
Definition strategy_rejected (st : Locals) : Prop :=
  List.length (errors st) = 1%nat ∧
  ∀ k, k ∈ strategy_key_names → final st !! k = None.

Definition strategy_migrated (st : Locals) : Prop :=
  errors st = [] ∧ warnings st = [dis_deprecated] ∧
  ∀ k, k ∈ strategy_key_names → is_Some (final st !! k).

Definition strategy_claim (self : Dict) (w : World) : Prop :=
  is_Some (self !! "DIODE_INSERTION_STRATEGY") →
  ∃ w' st, migrate_diode_insertion_strategy (initial self) w = (w', inr st) ∧
           (strategy_rejected st ∨ strategy_migrated st).

(** "Value 5 migrates without error to false, true, in." *)
Definition strategy_five_claim (self : Dict) (w : World) : Prop :=
  ∃ w' st, migrate_diode_insertion_strategy (initial self) w = (w', inr st) ∧
           errors st = [] ∧
           final st !! "GRT_REPAIR_ANTENNAS" = Some (VBool false) ∧
           final st !! "RUN_HEURISTIC_DIODE_INSERTION" = Some (VBool true) ∧
           final st !! "DIODE_ON_PORTS" = Some (VStr "in").

(** What [compile] answers for a variable when the loop reaches it. *)
Definition attempt (variable : ConfigVariable) (st : Locals) (w : World) : Compiled :=
  (compile variable (heap w) (mutable st) (final st)).2.

(** The answers of all variables, each in the state the loop has reached. *)
Fixpoint outcomes (variables : list ConfigVariable) (st : Locals) (w : World)
    : list Compiled :=
  match variables with
  | [] => []
  | variable :: rest =>
      attempt variable st w ::
      match compile_variable variable st w with
      | (w1, inr st1) => outcomes rest st1 w1
      | (_, inl _) => []
      end
  end.

Definition failure_messages (rs : list Compiled) : list string :=
  rs ≫= λ r, match r with CompileError msg => [msg] | CompileOk _ _ => [] end.


(** A variable that always fails and one that always yields 1 without
    consuming a key: the smallest variable list with a failure before a
    success. *)
Definition failing_variable (n msg : string) : ConfigVariable :=
  {| name := n; compile := λ h _ _, (h, [], CompileError msg) |}.

Definition constant_variable (n : string) (v : Value) : ConfigVariable :=
  {| name := n; compile := λ h _ _, (h, [], CompileOk None v) |}.


(** What the compile calls of the variables append to the warning list,
    each in the state the loop has reached. *)
Fixpoint appended (variables : list ConfigVariable) (st : Locals) (w : World)
    : list string :=
  match variables with
  | [] => []
  | variable :: rest =>
      ((compile variable (heap w) (mutable st) (final st)).1.2 ++
       match compile_variable variable st w with
       | (w1, inr st1) => appended rest st1 w1
       | (_, inl _) => []
       end)%list
  end.

(** What the override strings make of a raw configuration when each of
    them has its sign (lines 374-376). *)
Definition overridden (overrides : list string) (raw : Dict) : Dict :=
  foldl (λ raw string,
           match PyStr.split_once "=" string with
           | Some (key, value) => <[key := VStr value]> raw
           | None => raw
           end) raw overrides.


(** How often a message occurs in a list of messages. *)
Definition times (msg : string) (l : list string) : nat := count_occ string_dec l msg.

(** Line 710-715: a key that is left is reported as unknown when it is not
    special, not in the removed table, does not contain ["_OPT"] and is
    not ["//"]. *)
Definition reported_unknown (removed : gmap string string) (key : string) : bool :=
  negb (bool_decide (key ∈ SpecialKeys.values)) &&
  bool_decide (removed !! key = None) &&
  negb (PyStr.contains "_OPT" key) && negb (String.eqb key "//").

(** "Every key that is left, is not special, is not in the removed table,
    does not end in the marker and is not the sentinel is reported as
    unknown exactly once." *)
Definition unknown_key_claim (removed : gmap string string) (mutable : Dict) : Prop :=
  ∀ key, is_Some (mutable !! key) →
         key ∉ SpecialKeys.values → removed !! key = None →
         PyStr.endswith key "_OPT" = false → key ≠ "//" →
         times (unknown_warning key) (leftover_warnings removed mutable) = 1%nat.

Definition legacy_key_names : list string := ["DIODE_INSERTION_STRATEGY"; "EXTRA_SPEFS"].


(** Lines 665-672: what makes the flat list an error. *)
Definition spefs_rejected (h : Heap) (extra_spef_list : Value) : Prop :=
  match as_spef_list h extra_spef_list with
  | None => True
  | Some items => Z.of_nat (List.length items) mod 4 ≠ 0
  end.

(** The objects that the receiver's values refer to are as they were. *)
Definition receiver_untouched (self : Dict) (w w' : World) : Prop :=
  ∀ key l, self !! key = Some (VRef l) → heap w' !! l = heap w !! l.

(** A ["MACROS"] variable that consumes the raw key and yields a new,
    empty dictionary of macros. *)
Definition empty_macros_variable : ConfigVariable :=
  {| name := "MACROS";
     compile := λ h _ _,
       let l := fresh (dom h) in
       (<[l := ODict []]> h, [], CompileOk (Some "MACROS") (VRef l)) |}.

(** A receiver with one macro already declared and a flat list with one
    quadruple, as a Tcl configuration gives it. *)
Definition one_macro_world : World :=
  {| heap := {[ 1%positive := ODict [(VStr "old", VNone)] ]}; trace := [] |}.

Definition one_macro_config : Dict :=
  <["EXTRA_SPEFS" := VStr "m a b c"]> {["MACROS" := VRef 1%positive]}.

(** The record that lines 686-691 build for one quadruple, as it lies in
    the store: a dictionary with the module, a list holding the
    placeholder ["/dev/null"] and the three one-element lists of
    annotation files.  None of its objects is the object at [l0]. *)
Definition record_at (l0 : loc) (h : Heap) (r : loc)
    (q : Value * Value * Value * Value) : Prop :=
  let '(module, min, nom, max) := q in
  ∃ g s a b c,
    h !! r = Some (ODict [(VStr "module", module); (VStr "gds", VRef g);
                          (VStr "spef", VRef s)]) ∧
    h !! g = Some (OList [VStr "/dev/null"]) ∧
    h !! s = Some (ODict [(VStr "min_*", VRef a); (VStr "nom_*", VRef b);
                          (VStr "max_*", VRef c)]) ∧
    h !! a = Some (OList [min]) ∧ h !! b = Some (OList [nom]) ∧
    h !! c = Some (OList [max]) ∧
    r ≠ l0 ∧ g ≠ l0 ∧ s ≠ l0 ∧ a ≠ l0 ∧ b ≠ l0 ∧ c ≠ l0.

Definition module_of (q : Value * Value * Value * Value) : Value := q.1.1.1.

Definition is_scalar (v : Value) : Prop :=
  match v with VRef _ => False | _ => True end.

Definition empty_world : World := {| heap := ∅; trace := [] |}.

(** The text of the one Arabic-Indic digit five, U+0665, in UTF-8. *)
Definition arabic_five : string := String "217" (String "165" "").

(** ** Notions for the further properties *)

(** What lines 719-720 make of one object: the placeholder text of an
    instance's [gds] becomes the empty path, everything else stays. *)
Definition normalized (o : Obj) : Obj :=
  match o with
  | OInst cls attrs =>
      match attr_get attrs "gds" with
      | Some gds =>
          if is_dev_null gds then OInst cls (attr_set attrs "gds" (VPath "")) else o
      | None => o
      end
  | _ => o
  end.

(** A value of the macro table that line 719 can read: an instance with
    an attribute [gds]. *)
Definition is_macro (h : Heap) (v : Value) : Prop :=
  ∃ m cls attrs, v = VRef m ∧ h !! m = Some (OInst cls attrs) ∧
                 is_Some (attr_get attrs "gds").

(** A statement that leaves the log as it is, whether it returns or
    raises. *)
Definition quiet {A} (m : Py A) : Prop :=
  ∀ w, trace (m w).1 = trace w.

(** A machine with an empty file system and without Volare, a parser that
    refuses every text, and a resolver and a Tcl evaluator that hand back
    what they are given: the smallest surroundings to run the loaders in. *)
Definition bare_outside : Outside :=
  {| abspath := λ p, p; dirname := λ _, "/"; basename := λ p, p;
     splitext := λ p, (p, ""); join := λ a b, a ++ "/" ++ b;
     isdir := λ _, false; path_exists := λ _, false; glob := λ _, [];
     file_text := λ _, None;
     json_loads := λ _ h, (h, inl (ValueError "Expecting value"));
     env_from_tcl := λ d _ h, (h, inr d);
     resolve_process_info := λ d _ h, (h, inr d);
     resolve := λ d _ _ _ _ h, (h, inr d);
     migrate_old_config := λ d, d;
     volare_home := None;
     pdk_variables := []; removed_variables := ∅; pdk_removed_variables := ∅ |}.

Definition bare_args : LoadArgs :=
  {| design_dir := "/design"; flow_config_vars := []; config_override_strings := [];
     pdk_root := "/pdks"; pdk := None; scl := None; full_pdk_warnings := false |}.

(** A machine on which every path exists and every file is empty, with a
    parser that reads every text as the empty object and a Tcl evaluator
    that adds the library [lib] to what it is given: the smallest
    surroundings in which a technology is found. *)
Definition demo_outside : Outside :=
  {| abspath := λ p, p; dirname := λ _, "/"; basename := λ p, p;
     splitext := λ p, (p, ""); join := λ a b, a ++ "/" ++ b;
     isdir := λ _, false; path_exists := λ _, true; glob := λ _, [];
     file_text := λ _, Some "";
     json_loads := λ _ h, (h, inr ∅);
     env_from_tcl := λ d _ h, (h, inr (<["STD_CELL_LIBRARY" := VStr "lib"]> d));
     resolve_process_info := λ d _ h, (h, inr d);
     resolve := λ d _ _ _ _ h, (h, inr d);
     migrate_old_config := λ d, d;
     volare_home := None;
     pdk_variables := []; removed_variables := ∅; pdk_removed_variables := ∅ |}.



(** [_loads_tcl] in two parts: lines 445-489, up to the merged
    configuration, and lines 490-511, the override strings and the
    validation. *)
Definition _loads_tcl_until_overrides (out : Outside) (config : string) (a : LoadArgs)
    : Py Dict :=
  warn "Support for .tcl configuration files is deprecated. Please migrate to a .json file at your earliest convenience.";;
  pdk_root ← _resolve_pdk_root out (Some (pdk_root a));
  let config_in : Dict :=
    <[SpecialKeys.pdk := opt_str (pdk a)]> (<[SpecialKeys.pdk_root := VStr pdk_root]> ∅) in
  let tcl_vars_in :=
    <[SpecialKeys.design_dir := VStr (design_dir a)]>
      (<[SpecialKeys.scl := VStr ""]> config_in) in
  emit (EvTcl config);;
  tcl_config ← call (env_from_tcl out tcl_vars_in config);
  process_info ← call (resolve_process_info out tcl_config (design_dir a));
  h ← get_heap;
  let pdk := pdk_or h process_info (pdk a) in
  if decide (pdk = VNone) then raise pdk_required
  else
    '(config_in, _, scl) ← _get_pdk_config out pdk (scl a) pdk_root (full_pdk_warnings a);
    let tcl_vars_in :=
      <[SpecialKeys.design_dir := VStr (design_dir a)]>
        (<[SpecialKeys.scl := scl]> (<[SpecialKeys.pdk := pdk]> tcl_vars_in)) in
    emit (EvTcl config);;
    design_config ← call (env_from_tcl out tcl_vars_in config);
    mret (data (Config_overrides (data config_in) design_config)).

Definition _loads_tcl_from_overrides (out : Outside) (config_in : Dict) (a : LoadArgs)
    : Py Config :=
  config_in ← for_each (config_override_strings a) apply_override config_in;
  validate_design out None config_in a.

(** The quadruple that names a module last: its record is the one the
    table keeps, as a later assignment to an equal key replaces the
    earlier one. *)
Definition last_with (k : Value) (qs : list (Value * Value * Value * Value))
    : option (Value * Value * Value * Value) :=
  last (filter (λ q, hash_key (module_of q) = hash_key k) qs).

(** [InvalidConfig.__init__] (lines 72-88): the message handed to
    [ValueError] when the caller gives none. *)
Definition newline : ascii := "010"%char.
Definition tab : ascii := "009"%char.

Definition InvalidConfig_message (message : option string) (errors : list string)
    : string :=
  match message with
  | Some message => message
  | None =>
      fold_left (λ message error, message ++ String tab "* " ++ error) errors
        ("The following errors were encountered: " ++ String newline "")
  end.

(** How many line breaks a text has. *)
Definition line_breaks (s : string) : nat :=
  List.length (filter (λ c, c = newline) (PyStr.chars s)).

(** A variable that reads its value from one raw key and consumes it,
    and fails when the key is missing. *)
Definition renaming_variable (n key : string) : ConfigVariable :=
  {| name := n;
     compile := λ h m _,
       match m !! key with
       | Some v => (h, [], CompileOk (Some key) v)
       | None => (h, [], CompileError ("Required variable '" ++ n ++ "' did not get a value."))
       end |}.


(** How many spaces a text has. *)
Definition spaces (s : string) : nat :=
  List.length (filter (λ c, c = " "%char) (PyStr.chars s)).


(** The same call with other override strings. *)
Definition with_overrides (os : list string) (a : LoadArgs) : LoadArgs :=
  {| design_dir := design_dir a; flow_config_vars := flow_config_vars a;
     config_override_strings := os; pdk_root := pdk_root a; pdk := pdk a;
     scl := scl a; full_pdk_warnings := full_pdk_warnings a |}.

(** ** Running statements *)

Lemma bind_returns {A B} (m : Py A) (f : A → Py B) w w' b :
  (m ≫= f) w = (w', inr b) ↔
  ∃ a w1, m w = (w1, inr a) ∧ f a w1 = (w', inr b).
Proof.
  unfold mbind, Py_bind. split.
  - destruct (m w) as [w1 [e|a]]; [done|]. intros H. by exists a, w1.
  - intros (a & w1 & -> & H). done.
Qed.

Lemma bind_run {A B} (m : Py A) (f : A → Py B) w w1 a :
  m w = (w1, inr a) → (m ≫= f) w = f a w1.
Proof. unfold mbind, Py_bind. by intros ->. Qed.

Lemma bind_raises {A B} (m : Py A) (f : A → Py B) w w1 e :
  m w = (w1, inl e) → (m ≫= f) w = (w1, inl e).
Proof. unfold mbind, Py_bind. by intros ->. Qed.

Lemma ret_run {A} (a : A) w : (mret a : Py A) w = (w, inr a).
Proof. done. Qed.

Lemma for_each_app {A S} (xs ys : list A) (body : A → S → Py S) (s : S) w :
  for_each (xs ++ ys) body s w = (for_each xs body s ≫= for_each ys body) w.
Proof.
  revert s w. induction xs as [|x xs IH]; intros s w; simpl; [done|].
  unfold mbind, Py_bind in *. destruct (body x s w) as [w1 [e|s1]]; [done|].
  apply IH.
Qed.

(** ** The diode insertion strategy (lines 628-653) *)

Lemma Z_in_spec z l : Z_in z l = true ↔ z ∈ l.
Proof.
  unfold Z_in. rewrite existsb_exists. split.
  - intros (x & Hx & Heq). apply Z.eqb_eq in Heq. subst.
    by apply list_elem_of_In.
  - intros Hz. exists z. split; [by apply list_elem_of_In | apply Z.eqb_refl].
Qed.

Lemma refused_dec c :
  refused c ↔
  match c with
  | AsInt z => Z_in z [1; 2; 5] || (6 <? z) = true
  | StillText _ => True
  end.
Proof.
  destruct c as [z|s]; simpl; [|done].
  rewrite orb_true_iff, Z_in_spec, Z.ltb_lt. done.
Qed.

Lemma strategy_keys_lookup z f :
  strategy_keys z f !! "GRT_REPAIR_ANTENNAS" = Some (VBool (Z_in z [3; 6])) ∧
  strategy_keys z f !! "RUN_HEURISTIC_DIODE_INSERTION" = Some (VBool (Z_in z [5; 6])) ∧
  strategy_keys z f !! "DIODE_ON_PORTS" =
    Some (VStr (if Z_in z [5; 6] then "in" else "none")).
Proof.
  unfold strategy_keys.
  destruct (Z_in z [3; 6]), (Z_in z [5; 6]); by simplify_map_eq.
Qed.

Lemma strategy_keys_other z f k :
  k ∉ strategy_key_names → strategy_keys z f !! k = f !! k.
Proof.
  unfold strategy_key_names, strategy_keys. intros Hk.
  assert (k ≠ "GRT_REPAIR_ANTENNAS" ∧ k ≠ "RUN_HEURISTIC_DIODE_INSERTION"
          ∧ k ≠ "DIODE_ON_PORTS") as (? & ? & ?) by set_solver.
  destruct (Z_in z [3; 6]), (Z_in z [5; 6]); by simplify_map_eq.
Qed.

Lemma migrate_dis_spec (self : Dict) (w : World) (dis : Value) (c : Coerced) :
  self !! "DIODE_INSERTION_STRATEGY" = Some dis →
  int_or_keep dis = inr c →
  (refused c → ∀ text, shown c = Some text →
     ∃ st, migrate_diode_insertion_strategy (initial self) w = (w, inr st) ∧
           mutable st = delete "DIODE_INSERTION_STRATEGY" self ∧
           translated_macros st = false ∧
           errors st = [dis_unavailable text] ∧ warnings st = [] ∧ final st = ∅) ∧
  (refused c → shown c = None →
     migrate_diode_insertion_strategy (initial self) w = (w, inl dis_too_long)) ∧
  (¬ refused c →
     ∃ st z, migrate_diode_insertion_strategy (initial self) w = (w, inr st) ∧
             mutable st = delete "DIODE_INSERTION_STRATEGY" self ∧
             translated_macros st = false ∧
             c = AsInt z ∧ errors st = [] ∧ warnings st = [dis_deprecated] ∧
             final st !! "GRT_REPAIR_ANTENNAS" = Some (VBool (bool_decide (z ∈ [3; 6]))) ∧
             final st !! "RUN_HEURISTIC_DIODE_INSERTION" =
               Some (VBool (bool_decide (z ∈ [5; 6]))) ∧
             final st !! "DIODE_ON_PORTS" =
               Some (VStr (if bool_decide (z ∈ [5; 6]) then "in" else "none")) ∧
             ∀ k, k ∉ strategy_key_names → final st !! k = None).
Proof.
  intros Hdis Hint.
  assert (get_not_None self "DIODE_INSERTION_STRATEGY" = Some dis) as Hget.
  { unfold get_not_None. rewrite Hdis. by destruct dis. }
  unfold migrate_diode_insertion_strategy. simpl. rewrite Hget, Hint.
  pose proof (refused_dec c) as Href.
  destruct c as [z|s]; simpl in *.
  - destruct (Z_in z [1; 2; 5] || (6 <? z)) eqn:Hrej.
    + split_and!.
      * intros _ text ->. by eexists.
      * by intros _ ->.
      * intros Hn. exfalso. apply Hn. by apply Href.
    + split_and!.
      * intros Hr. apply Href in Hr. done.
      * intros Hr. apply Href in Hr. done.
      * intros _. eexists _, z. split; [done|]. simpl.
        destruct (strategy_keys_lookup z ∅) as (Hg & Hr & Hp).
        assert (∀ l, bool_decide (z ∈ l) = Z_in z l) as Hbd.
        { intros l. destruct (Z_in z l) eqn:E.
          - apply bool_decide_eq_true. by apply Z_in_spec.
          - apply bool_decide_eq_false. intros Hin. apply Z_in_spec in Hin. congruence. }
        rewrite !Hbd. split_and!; try done.
        intros k Hk. by rewrite strategy_keys_other.
  - split_and!.
    + intros _ text [= <-]. by eexists.
    + done.
    + intros Hn. by destruct Hn.
Qed.

(** How [int] reads the strategy: a control character of the separator
    group is no white space for it, although [str.isspace] takes it for
    one; decimal digits and white space of other scripts are read; a
    number with a fraction is cut towards zero; a NaN stays what it is. *)
Example int_refuses_a_separator :
  int_or_keep (VStr (String "028" "3")) = inr (StillText (String "028" "3")).
Proof. reflexivity. Qed.

Example int_reads_the_digits_of_other_scripts :
  int_or_keep (VStr arabic_five) = inr (AsInt 5) ∧
  int_or_keep (VStr (String "227" (String "128" (String "128" "3")))) = inr (AsInt 3).
Proof. split; reflexivity. Qed.

Example int_cuts_towards_zero :
  int_or_keep (VDec (Q2Qc (59 # 10))) = inr (AsInt 5) ∧
  int_or_keep (VFloat (Finite (Q2Qc (-37 # 10)))) = inr (AsInt (-3)) ∧
  int_or_keep (VFloat (NaN 1)) = inr (StillText "nan").
Proof. repeat split; reflexivity. Qed.

(** C1 (as amended): when the strategy key is bound to a value that [int]
    takes or refuses with a [ValueError] (a boolean, an integer, a finite
    float or a NaN, a finite decimal, a text), the key leaves the working
    set and one of three things happens.  A value that is refused (1, 2,
    5, above 6, not an integer) gives exactly one error, which shows the
    integer or the text that was refused, no warning and no key.  When
    the refused integer has more digits than the interpreter writes, the
    message of line 639 cannot be built and the [ValueError] of that
    leaves the method.  Any other value gives exactly one deprecation
    warning, no error, and the three keys set by the table. *)
Theorem strategy_migration (self : Dict) (w : World) (dis : Value) (c : Coerced) :
  self !! "DIODE_INSERTION_STRATEGY" = Some dis →
  int_or_keep dis = inr c →
  (refused c → ∀ text, shown c = Some text →
     ∃ st, migrate_diode_insertion_strategy (initial self) w = (w, inr st) ∧
           mutable st = delete "DIODE_INSERTION_STRATEGY" self ∧
           errors st = [dis_unavailable text] ∧ warnings st = [] ∧ final st = ∅) ∧
  (refused c → shown c = None →
     migrate_diode_insertion_strategy (initial self) w = (w, inl dis_too_long)) ∧
  (¬ refused c →
     ∃ st z, migrate_diode_insertion_strategy (initial self) w = (w, inr st) ∧
             mutable st = delete "DIODE_INSERTION_STRATEGY" self ∧
             c = AsInt z ∧ errors st = [] ∧ warnings st = [dis_deprecated] ∧
             final st !! "GRT_REPAIR_ANTENNAS" = Some (VBool (bool_decide (z ∈ [3; 6]))) ∧
             final st !! "RUN_HEURISTIC_DIODE_INSERTION" =
               Some (VBool (bool_decide (z ∈ [5; 6]))) ∧
             final st !! "DIODE_ON_PORTS" =
               Some (VStr (if bool_decide (z ∈ [5; 6]) then "in" else "none")) ∧
             ∀ k, k ∉ strategy_key_names → final st !! k = None).
Proof.
  intros Hdis Hint.
  destruct (migrate_dis_spec self w dis c Hdis Hint) as (Hrej & Hlong & Hok).
  split_and!.
  - intros Hr text Ht.
    destruct (Hrej Hr text Ht) as (st & ? & ? & _ & ? & ? & ?). by exists st.
  - done.
  - intros Hn. destruct (Hok Hn) as (st & z & ? & ? & _ & ?). by exists st, z.
Qed.

Lemma strategy_migration_witness :
  (∃ st, migrate_diode_insertion_strategy
           (initial {["DIODE_INSERTION_STRATEGY" := VStr "6"]}) empty_world
         = (empty_world, inr st) ∧
         errors st = [] ∧ warnings st = [dis_deprecated] ∧
         final st !! "DIODE_ON_PORTS" = Some (VStr "in")) ∧
  (∃ st, migrate_diode_insertion_strategy
           (initial {["DIODE_INSERTION_STRATEGY" := VStr "7"]}) empty_world
         = (empty_world, inr st) ∧
         errors st = [dis_unavailable "7"] ∧ warnings st = [] ∧ final st = ∅) ∧
  migrate_diode_insertion_strategy
    (initial {["DIODE_INSERTION_STRATEGY" := VInt (10 ^ 4300)]}) empty_world
  = (empty_world, inl dis_too_long).
Proof.
  split_and!.
  - destruct (strategy_migration {["DIODE_INSERTION_STRATEGY" := VStr "6"]}
                empty_world (VStr "6") (AsInt 6))
      as (_ & _ & Hok); [vm_compute; reflexivity | reflexivity |].
    destruct Hok as (st & z & Hrun & _ & Hz & He & Hw & _ & _ & Hp & _).
    { simpl. intros [Hin | Hlt]; [|lia].
      apply Z_in_spec in Hin. discriminate Hin. }
    exists st. injection Hz as <-. by rewrite He, Hw, Hp.
  - destruct (strategy_migration {["DIODE_INSERTION_STRATEGY" := VStr "7"]}
                empty_world (VStr "7") (AsInt 7))
      as (Hrej & _ & _); [vm_compute; reflexivity | reflexivity |].
    destruct (Hrej (or_intror eq_refl) "7" eq_refl) as (st & Hrun & _ & He & Hw & Hf).
    by exists st.
  - destruct (strategy_migration {["DIODE_INSERTION_STRATEGY" := VInt (10 ^ 4300)]}
                empty_world (VInt (10 ^ 4300)) (AsInt (10 ^ 4300)))
      as (_ & Hlong & _); [apply lookup_singleton_eq | reflexivity |].
    apply Hlong.
    + right. vm_compute. reflexivity.
    + vm_compute. reflexivity.
Defined.

(** C1, as the specification words it, fails where the key is present
    with the value [None]: lines 628-630 take it for absent, so neither an
    error nor a warning is recorded. *)
Lemma strategy_claim_fails_on_None :
  ¬ strategy_claim {["DIODE_INSERTION_STRATEGY" := VNone]} empty_world.
Proof.
  intros Hclaim.
  destruct Hclaim as (w' & st & Hrun & Hcase).
  { rewrite lookup_singleton_eq. by eexists. }
  unfold migrate_diode_insertion_strategy, get_not_None in Hrun. simpl in Hrun.
  rewrite lookup_singleton_eq in Hrun. injection Hrun as <- <-.
  destruct Hcase as [[Hlen _] | (_ & Hw & _)]; simpl in *; discriminate.
Qed.

(** C4 (as amended): a strategy that [int] reads as 5 is refused by the
    guard of line 637: the key leaves the working set, exactly one error
    is recorded, no warning is, and none of the three keys is set. *)
Theorem strategy_five_rejected (self : Dict) (w : World) (dis : Value) :
  self !! "DIODE_INSERTION_STRATEGY" = Some dis →
  int_or_keep dis = inr (AsInt 5) →
  ∃ st, migrate_diode_insertion_strategy (initial self) w = (w, inr st) ∧
        mutable st = delete "DIODE_INSERTION_STRATEGY" self ∧
        errors st = [dis_unavailable "5"] ∧ warnings st = [] ∧
        ∀ k, k ∈ strategy_key_names → final st !! k = None.
Proof.
  intros Hdis Hint.
  destruct (migrate_dis_spec self w dis _ Hdis Hint) as (Hrej & _ & _).
  assert (refused (AsInt 5)) as Hfive by (left; set_solver).
  destruct (Hrej Hfive "5" eq_refl) as (st & Hrun & Hm & _ & He & Hw & Hf).
  exists st. repeat split; try done.
  intros k _. rewrite Hf. apply lookup_empty.
Qed.

Lemma strategy_five_rejected_witness :
  (∃ st, migrate_diode_insertion_strategy
           (initial {["DIODE_INSERTION_STRATEGY" := VInt 5]}) empty_world
         = (empty_world, inr st) ∧
         errors st = [dis_unavailable "5"] ∧ warnings st = []) ∧
  (∃ st, migrate_diode_insertion_strategy
           (initial {["DIODE_INSERTION_STRATEGY" := VStr arabic_five]}) empty_world
         = (empty_world, inr st) ∧
         errors st = [dis_unavailable "5"] ∧ warnings st = []).
Proof.
  split.
  - destruct (strategy_five_rejected {["DIODE_INSERTION_STRATEGY" := VInt 5]}
                empty_world (VInt 5))
      as (st & Hrun & _ & He & Hw & _); [vm_compute; reflexivity | reflexivity |].
    exists st. by rewrite He, Hw.
  - destruct (strategy_five_rejected {["DIODE_INSERTION_STRATEGY" := VStr arabic_five]}
                empty_world (VStr arabic_five))
      as (st & Hrun & _ & He & Hw & _); [vm_compute; reflexivity | vm_compute; reflexivity |].
    exists st. by rewrite He, Hw.
Defined.

(** C4, as the specification words it, fails at the value 5. *)
Lemma strategy_five_claim_fails :
  ¬ strategy_five_claim {["DIODE_INSERTION_STRATEGY" := VInt 5]} empty_world.
Proof.
  intros (w' & st & Hrun & He & _).
  unfold migrate_diode_insertion_strategy, get_not_None in Hrun. simpl in Hrun.
  rewrite lookup_singleton_eq in Hrun. simpl in Hrun.
  injection Hrun as <- <-. discriminate He.
Qed.

(** The outcomes of the strategy block from any state. *)
Lemma migrate_dis_cases st w w' st' :
  migrate_diode_insertion_strategy st w = (w', inr st') →
  w' = w ∧ translated_macros st' = translated_macros st ∧
  ((get_not_None (mutable st) "DIODE_INSERTION_STRATEGY" = None ∧ st' = st) ∨
   (∃ dis c,
       get_not_None (mutable st) "DIODE_INSERTION_STRATEGY" = Some dis ∧
       int_or_keep dis = inr c ∧
       mutable st' = delete "DIODE_INSERTION_STRATEGY" (mutable st) ∧
       ((refused c ∧
         (∃ text, shown c = Some text ∧
                  errors st' = (errors st ++ [dis_unavailable text])%list) ∧
         warnings st' = warnings st ∧ final st' = final st) ∨
        (∃ z, c = AsInt z ∧ ¬ refused c ∧ errors st' = errors st ∧
              warnings st' = (warnings st ++ [dis_deprecated])%list ∧
              final st' = strategy_keys z (final st))))).
Proof.
  unfold migrate_diode_insertion_strategy.
  destruct (get_not_None (mutable st) "DIODE_INSERTION_STRATEGY") as [dis|] eqn:Hget.
  2:{ intros [= <- <-]. split_and!; [done | done | by left]. }
  destruct (int_or_keep dis) as [e|c] eqn:Hint; [done|].
  pose proof (refused_dec c) as Href.
  destruct c as [z|s]; simpl in Href.
  - destruct (Z_in z [1; 2; 5] || (6 <? z)) eqn:Hrej.
    + destruct (PyStr.str_int z) as [text|] eqn:Htext; [|done]. intros [= <- <-].
      split_and!; [done | done |]. right. exists dis, (AsInt z).
      split_and!; [done | done | done |]. left. split_and!; try done.
      * by apply Href.
      * by exists text.
    + intros [= <- <-]. split_and!; [done | done |]. right. exists dis, (AsInt z).
      split_and!; [done | done | done |]. right. exists z.
      split_and!; try done. intros Hr. apply Href in Hr. done.
  - intros [= <- <-]. split_and!; [done | done |]. right. exists dis, (StillText s).
    split_and!; [done | done | done |]. left. split_and!; try done. by exists s.
Qed.

(** ** The flat list (lines 656-692): what the block leaves alone *)

Ltac py_unfold :=
  unfold mbind, Py_bind, mret, Py_ret, get_heap, put_heap, raise, alloc, call in *;
  simpl in *.

Lemma translate_quadruple_locals q st w w' st' :
  translate_quadruple q st w = (w', inr st') → st' = st.
Proof.
  destruct q as [[[module min] nom] max]. unfold translate_quadruple.
  intros H. apply bind_returns in H as (md & w1 & _ & H).
  destruct (mutable st !! "MACROS"); [|done].
  apply bind_returns in H as (? & w2 & _ & H).
  by injection H as _ <-.
Qed.

Lemma translate_all_locals qs st w w' st' :
  for_each qs translate_quadruple st w = (w', inr st') → st' = st.
Proof.
  revert st w. induction qs as [|q qs IH]; intros st w H; simpl in H.
  - by injection H as _ <-.
  - apply bind_returns in H as (st1 & w1 & H1 & H2).
    apply translate_quadruple_locals in H1 as ->. eauto.
Qed.

(** Lines 658-661 do not raise; they may add one empty dictionary. *)
Lemma take_extra_spefs_run st w :
  ∃ macros w1,
    take_extra_spefs st w = (w1, inr (spefs_taken macros st)) ∧
    trace w1 = trace w ∧
    (heap w1 = heap w ∨ heap w1 = <[fresh (dom (heap w)) := ODict []]> (heap w)).
Proof.
  unfold take_extra_spefs. py_unfold.
  destruct (mutable st !! "MACROS") as [mv|]; [destruct (truthy (heap w) mv)|].
  - exists mv, w. by split_and!; [|  | left].
  - eexists _, _. by split_and!; [| | right].
  - eexists _, _. by split_and!; [| | right].
Qed.

(** The outcomes of the block, case by case. *)
Lemma migrate_extra_spefs_cases st w w' st' :
  migrate_extra_spefs st w = (w', inr st') →
  (get_not_None (mutable st) "EXTRA_SPEFS" = None ∧ st' = st ∧ w' = w) ∨
  (∃ v macros,
      get_not_None (mutable st) "EXTRA_SPEFS" = Some v ∧
      ((∃ ty, st' = append_error (spef_invalid_type ty) (spefs_taken macros st)) ∨
       st' = append_error spef_invalid_count (spefs_taken macros st) ∨
       st' = append_warnings [spef_deprecated]
               (set_translated_macros true (spefs_taken macros st)))).
Proof.
  unfold migrate_extra_spefs. intros H.
  destruct (get_not_None (mutable st) "EXTRA_SPEFS") as [v|] eqn:Hget.
  2:{ left. by injection H as <- <-. }
  right. exists v.
  destruct (take_extra_spefs_run st w) as (macros & w1 & Htake & _).
  erewrite bind_run in H by exact Htake.
  exists macros. split; [done|].
  unfold translate_extra_spefs in H.
  apply bind_returns in H as (h2 & w3 & _ & H).
  destruct (as_spef_list h2 v) as [items|].
  - destruct (negb _).
    + right. left. by injection H as _ <-.
    + right. right. by apply translate_all_locals in H.
  - left. eexists. by injection H as _ <-.
Qed.

Lemma migrate_extra_spefs_frame st w w' st' :
  migrate_extra_spefs st w = (w', inr st') →
  final st' = final st ∧
  (∃ es : list string, errors st' = (errors st ++ es)%list ∧ (List.length es ≤ 1)%nat) ∧
  (∃ ws : list string, warnings st' = (warnings st ++ ws)%list) ∧
  (is_Some (get_not_None (mutable st) "EXTRA_SPEFS") →
     mutable st' !! "EXTRA_SPEFS" = None) ∧
  (∀ k, k ≠ "EXTRA_SPEFS" → k ≠ "MACROS" → mutable st' !! k = mutable st !! k).
Proof.
  intros H. apply migrate_extra_spefs_cases in H
    as [(Hget & -> & _) | (v & macros & Hget & Hcase)].
  - split; [done|]. split; [exists []; split; [by rewrite app_nil_r|simpl; lia]|].
    split; [exists []; by rewrite app_nil_r|]. split; [|done].
    rewrite Hget. by intros [? ?].
  - assert (∀ k, k ≠ "EXTRA_SPEFS" → k ≠ "MACROS" →
              mutable (spefs_taken macros st) !! k = mutable st !! k) as Hk.
    { intros k ? ?. simpl. by rewrite lookup_delete_ne, lookup_insert_ne. }
    assert (mutable (spefs_taken macros st) !! "EXTRA_SPEFS" = None) as Hgone.
    { simpl. apply lookup_delete_eq. }
    destruct Hcase as [[ty ->] | [-> | ->]]; simpl in *.
    + split; [done|]. split; [eexists; split; [done|simpl; lia]|].
      split; [exists []; by rewrite app_nil_r|]. done.
    + split; [done|]. split; [eexists; split; [done|simpl; lia]|].
      split; [exists []; by rewrite app_nil_r|]. done.
    + split; [done|]. split; [exists []; split; [by rewrite app_nil_r|simpl; lia]|].
      split; [by eexists|]. done.
Qed.

(** ** The compile loop (lines 694-705) *)

Lemma compile_variable_run variable st w :
  compile_variable variable st w =
  let '(h', appended, result) := compile variable (heap w) (mutable st) (final st) in
  let w1 := {| heap := h'; trace := trace w |} in
  let st1 := append_warnings appended st in
  match result with
  | CompileOk (Some key) value =>
      if decide (is_Some (mutable st !! key))
      then (w1, inr (set_final (<[name variable := value]> (final st))
                       (set_mutable (delete key (mutable st)) st1)))
      else (w1, inl (KeyError key))
  | CompileOk None value =>
      (w1, inr (set_final (<[name variable := value]> (final st)) st1))
  | CompileError msg => (w1, inr (append_error msg st1))
  end.
Proof.
  unfold compile_variable. py_unfold.
  destruct (compile variable (heap w) (mutable st) (final st)) as [[h' ws] r].
  destruct r as [[key|] value|msg]; simpl; try done.
  by destruct (decide (is_Some (mutable st !! key))).
Qed.

(** One turn of the loop appends the variable's error, if it has one, and
    nothing else, to the error list. *)
Lemma compile_variable_errors variable st w w1 st1 :
  compile_variable variable st w = (w1, inr st1) →
  errors st1 = (errors st ++ failure_messages [attempt variable st w])%list ∧
  translated_macros st1 = translated_macros st ∧
  dom (mutable st1) ⊆ dom (mutable st) ∧
  dom (final st1) ⊆ dom (final st) ∪ {[name variable]} ∧
  (∀ k, k ≠ name variable → final st1 !! k = final st !! k) ∧
  (∃ ws : list string, warnings st1 = (warnings st ++ ws)%list).
Proof.
  rewrite compile_variable_run. unfold attempt.
  destruct (compile variable (heap w) (mutable st) (final st)) as [[h' ws] r].
  simpl. destruct r as [[key|] value|msg].
  - destruct (decide _); [|done]. intros [= <- <-]. simpl.
    rewrite app_nil_r, dom_delete_L, dom_insert_L.
    split_and!; [done | done | set_solver | set_solver | | by eexists].
    intros k Hk. by rewrite lookup_insert_ne.
  - intros [= <- <-]. simpl. rewrite app_nil_r, dom_insert_L.
    split_and!; [done | done | set_solver | set_solver | | by eexists].
    intros k Hk. by rewrite lookup_insert_ne.
  - intros [= <- <-]. simpl.
    split_and!; [done | done | set_solver | set_solver | done | by eexists].
Qed.


Lemma failure_messages_cons r rs :
  failure_messages (r :: rs) = (failure_messages [r] ++ failure_messages rs)%list.
Proof. unfold failure_messages. simpl. by rewrite app_nil_r. Qed.

Lemma compile_variables_errors variables st w w' st' :
  compile_variables variables st w = (w', inr st') →
  List.length (outcomes variables st w) = List.length variables ∧
  errors st' = (errors st ++ failure_messages (outcomes variables st w))%list ∧
  translated_macros st' = translated_macros st ∧
  dom (mutable st') ⊆ dom (mutable st) ∧
  dom (final st') ⊆ dom (final st) ∪ list_to_set (name <$> variables) ∧
  (∀ k, k ∉ name <$> variables → final st' !! k = final st !! k) ∧
  (∃ ws : list string, warnings st' = (warnings st ++ ws)%list).
Proof.
  unfold compile_variables. revert st w.
  induction variables as [|v vs IH]; intros st w H; simpl in H.
  - injection H as <- <-. simpl. rewrite app_nil_r.
    split_and!; [done | done | done | set_solver | set_solver | done
                | exists []; by rewrite app_nil_r].
  - apply bind_returns in H as (st1 & w1 & H1 & H2).
    simpl. rewrite H1.
    destruct (compile_variable_errors _ _ _ _ _ H1) as (He & Ht & Hm & Hf & Hk & ws1 & Hw).
    destruct (IH _ _ H2) as (Hlen & He' & Ht' & Hm' & Hf' & Hk' & ws2 & Hw').
    split; [by rewrite Hlen|]. split.
    { rewrite He', He, <- app_assoc. f_equal. symmetry. apply failure_messages_cons. }
    split; [congruence|]. split; [by etrans|]. split.
    { clear -Hf Hf'. simpl. set_solver. }
    split.
    { intros k Hk0. rewrite Hk', Hk; [done | set_solver | set_solver]. }
    exists (ws1 ++ ws2)%list. by rewrite Hw', Hw, <- app_assoc.
Qed.


(** ** The method as a whole *)

Lemma process_variable_list_returns self variables removed w w' f ws es :
  process_variable_list self variables removed w = (w', inr (f, ws, es)) ↔
  ∃ st1 w1 st2 w2,
    migrate_legacy_keys (initial self) w = (w1, inr st1) ∧
    compile_variables variables st1 w1 = (w2, inr st2) ∧
    normalize_macros (report_leftover_keys (default ∅ removed) st2) w2 = (w', inr tt) ∧
    f = final st2 ∧
    ws = (warnings st2 ++ leftover_warnings (default ∅ removed) (mutable st2))%list ∧
    es = errors st2.
Proof.
  unfold process_variable_list. rewrite bind_returns. split.
  - intros (st1 & w1 & H1 & H). apply bind_returns in H as (st2 & w2 & H2 & H).
    apply bind_returns in H as ([] & w3 & H3 & H).
    injection H as <- <- <- <-. by exists st1, w1, st2, w2.
  - intros (st1 & w1 & st2 & w2 & H1 & H2 & H3 & -> & -> & ->).
    exists st1, w1. split; [done|].
    erewrite bind_run by exact H2. erewrite bind_run by exact H3. done.
Qed.

(** ** The verdict (lines 419-431, 499-511) *)

Lemma warn_all_run msgs w :
  warn_all msgs w =
  ({| heap := heap w; trace := trace w ++ (EvWarn <$> msgs) |}, inr tt).
Proof.
  unfold warn_all. revert w. induction msgs as [|m ms IH]; intros w; simpl.
  - rewrite app_nil_r. by destruct w.
  - unfold mbind, Py_bind, warn, emit. simpl. rewrite IH. simpl.
    by rewrite <- app_assoc.
Qed.

Lemma deliver_raises config_in design_warnings design_errors w :
  design_errors ≠ [] →
  deliver config_in design_warnings design_errors w =
  (w, inl (InvalidConfig "design configuration file" design_warnings design_errors)).
Proof.
  intros Hne. unfold deliver. by rewrite bool_decide_eq_false_2.
Qed.

Lemma deliver_returns config_in design_warnings w :
  ∃ w', deliver config_in design_warnings [] w = (w', inr config_in) ∧
        heap w' = heap w ∧
        ∃ told, trace w' = (trace w ++ told ++ (EvWarn <$> design_warnings))%list.
Proof.
  unfold deliver. simpl.
  destruct (negb (bool_decide (design_warnings = []))).
  - unfold mbind, Py_bind, info, emit. simpl. rewrite warn_all_run. simpl.
    eexists. split; [done|]. split; [done|]. eexists [_]. by rewrite <- app_assoc.
  - unfold mbind, Py_bind, mret, Py_ret. simpl. rewrite warn_all_run. simpl.
    eexists. split; [done|]. split; [done|]. by exists [].
Qed.

Lemma validate_design_run out meta_raw config_in a w w1 f ws es :
  process_variable_list config_in (pdk_variables out ++ flow_config_vars a)
    (Some (removed_variables out)) w = (w1, inr (f, ws, es)) →
  validate_design out meta_raw config_in a w =
  let '(config, es') := attach_meta (heap w1) meta_raw f es in
  deliver config ws es' w1.
Proof.
  intros Hrun. unfold validate_design. erewrite bind_run by exact Hrun.
  unfold mbind, Py_bind, get_heap.
  by destruct (attach_meta (heap w1) meta_raw f es).
Qed.

(** ** The keys that are left (lines 707-715) *)

Lemma chars_app a b : PyStr.chars (a ++ b) = (PyStr.chars a ++ PyStr.chars b)%list.
Proof. unfold PyStr.chars. induction a as [|c a IH]; simpl; [done | by rewrite IH]. Qed.

Lemma chars_inj a b : PyStr.chars a = PyStr.chars b → a = b.
Proof.
  unfold PyStr.chars. intros H.
  rewrite <- (string_of_list_ascii_of_string a), <- (string_of_list_ascii_of_string b).
  by rewrite H.
Qed.

Lemma string_app_inv_tail (a b c : string) : a ++ c = b ++ c → a = b.
Proof.
  intros H. apply chars_inj. apply (f_equal PyStr.chars) in H.
  rewrite !chars_app in H. by apply app_inv_tail in H.
Qed.

Lemma unknown_warning_inj a b : unknown_warning a = unknown_warning b → a = b.
Proof.
  unfold unknown_warning. intros H. simpl in H. injection H as H.
  change (a ++ "' provided." = b ++ "' provided.") in H.
  by apply string_app_inv_tail in H.
Qed.

Lemma unknown_ne_removed a b note : unknown_warning a ≠ removed_warning b note.
Proof. unfold unknown_warning, removed_warning. simpl. discriminate. Qed.

Lemma sorted_keys_perm (m : Dict) : sorted_keys m ≡ₚ (map_to_list m).*1.
Proof. apply merge_sort_Permutation. Qed.

Lemma sorted_keys_NoDup (m : Dict) : NoDup (sorted_keys m).
Proof. rewrite sorted_keys_perm. apply NoDup_fst_map_to_list. Qed.

Lemma sorted_keys_elem (m : Dict) k : k ∈ sorted_keys m ↔ is_Some (m !! k).
Proof.
  rewrite sorted_keys_perm, list_elem_of_fmap. split.
  - intros ([k' v] & -> & Hin). apply elem_of_map_to_list in Hin. by eexists.
  - intros [v Hv]. exists (k, v). split; [done|]. by apply elem_of_map_to_list.
Qed.

Local Opaque unknown_warning removed_warning.

Lemma times_leftover_warning removed a k :
  times (unknown_warning k) (leftover_warning removed a) =
  if decide (a = k) then (if reported_unknown removed k then 1 else 0)%nat else 0%nat.
Proof.
  unfold times, leftover_warning, reported_unknown.
  destruct (decide (a = k)) as [->|Hne].
  - destruct (bool_decide (k ∈ SpecialKeys.values)); simpl; [done|].
    destruct (removed !! k) as [note|] eqn:Hr.
    + rewrite bool_decide_eq_false_2 by done. simpl.
      destruct (string_dec (removed_warning k note) (unknown_warning k)) as [E|]; [|done].
      symmetry in E. by apply unknown_ne_removed in E.
    + rewrite bool_decide_eq_true_2 by done. simpl.
      destruct (negb (PyStr.contains "_OPT" k) && negb (k =? "//")%string); simpl; [|done].
      by destruct (string_dec (unknown_warning k) (unknown_warning k)).
  - destruct (bool_decide (a ∈ SpecialKeys.values)); [done|].
    destruct (removed !! a) as [note|]; simpl.
    + destruct (string_dec (removed_warning a note) (unknown_warning k)) as [E|]; [|done].
      symmetry in E. by apply unknown_ne_removed in E.
    + destruct (negb (PyStr.contains "_OPT" a) && negb (a =? "//")%string); simpl; [|done].
      destruct (string_dec (unknown_warning a) (unknown_warning k)) as [E|]; [|done].
      apply unknown_warning_inj in E. done.
Qed.

Local Transparent unknown_warning removed_warning.

Lemma times_bind_NoDup removed (l : list string) k :
  NoDup l →
  times (unknown_warning k) (l ≫= leftover_warning removed) =
  if decide (k ∈ l) then (if reported_unknown removed k then 1 else 0)%nat else 0%nat.
Proof.
  induction 1 as [|a l Hnotin Hnd IH].
  - simpl. destruct (decide (k ∈ [])) as [Hin|]; [|done]. by apply elem_of_nil in Hin.
  - change ((a :: l) ≫= leftover_warning removed)
      with (leftover_warning removed a ++ (l ≫= leftover_warning removed))%list.
    unfold times in *. rewrite count_occ_app.
    fold (times (unknown_warning k) (leftover_warning removed a)).
    rewrite times_leftover_warning, IH.
    destruct (decide (a = k)) as [->|Hne].
    + destruct (decide (k ∈ l)) as [Hin|_]; [done|].
      destruct (decide (k ∈ k :: l)) as [_|Hn]; [lia|]. exfalso. apply Hn. set_solver.
    + destruct (decide (k ∈ l)) as [Hin|Hin];
        destruct (decide (k ∈ a :: l)) as [Hin'|Hin']; try done.
      * exfalso. apply Hin'. set_solver.
      * exfalso. apply Hin. set_solver.
Qed.

(** Each key that is left is reported as unknown once or not at all, by
    the test of lines 710-715. *)
Lemma times_leftover_warnings removed (m : Dict) k :
  times (unknown_warning k) (leftover_warnings removed m) =
  if decide (is_Some (m !! k)) then (if reported_unknown removed k then 1 else 0)%nat
  else 0%nat.
Proof.
  unfold leftover_warnings. rewrite times_bind_NoDup by apply sorted_keys_NoDup.
  destruct (decide (k ∈ sorted_keys m)) as [Hin|Hin]; rewrite sorted_keys_elem in Hin.
  - by rewrite decide_True.
  - by rewrite decide_False.
Qed.

(** ** The legacy keys leave the working set *)

Lemma get_not_None_Some (d : Dict) k v :
  get_not_None d k = Some v ↔ d !! k = Some v ∧ v ≠ VNone.
Proof.
  unfold get_not_None. destruct (d !! k) as [x|]; [|naive_solver].
  destruct x; naive_solver.
Qed.

Lemma get_not_None_None (d : Dict) k :
  get_not_None d k = None ↔ d !! k = None ∨ d !! k = Some VNone.
Proof.
  unfold get_not_None. destruct (d !! k) as [x|]; [|naive_solver].
  destruct x; naive_solver.
Qed.

Lemma migrate_legacy_keys_returns st w w1 st1 :
  migrate_legacy_keys st w = (w1, inr st1) ↔
  ∃ st0, migrate_diode_insertion_strategy st w = (w, inr st0) ∧
         migrate_extra_spefs st0 w = (w1, inr st1).
Proof.
  unfold migrate_legacy_keys. rewrite bind_returns. split.
  - intros (st0 & w0 & H0 & H1).
    destruct (migrate_dis_cases _ _ _ _ H0) as (-> & _). by exists st0.
  - intros (st0 & H0 & H1). by exists st0, w.
Qed.

(** After both blocks a legacy key that was bound to a value other than
    [None] is gone, the other keys except ["MACROS"] are as they were, and
    only the three strategy keys can be in [final]. *)
Lemma migrate_legacy_keys_frame self w w1 st1 :
  migrate_legacy_keys (initial self) w = (w1, inr st1) →
  (∀ key v, key ∈ legacy_key_names → self !! key = Some v → v ≠ VNone →
            mutable st1 !! key = None) ∧
  (∀ k, k ∉ legacy_key_names → k ≠ "MACROS" → mutable st1 !! k = self !! k) ∧
  (∀ k, k ∉ strategy_key_names → final st1 !! k = None).
Proof.
  intros H. apply migrate_legacy_keys_returns in H as (st0 & H0 & H1).
  destruct (migrate_dis_cases _ _ _ _ H0) as (_ & _ & Hdis).
  destruct (migrate_extra_spefs_frame _ _ _ _ H1) as (Hf & _ & _ & Hgone & Hkeep).
  assert (mutable st0 !! "EXTRA_SPEFS" = self !! "EXTRA_SPEFS") as Hspef.
  { destruct Hdis as [(_ & ->) | (dis & c & _ & _ & -> & _)]; [done|].
    by rewrite lookup_delete_ne. }
  assert (∀ k, k ≠ "DIODE_INSERTION_STRATEGY" → mutable st0 !! k = self !! k) as Hother.
  { intros k Hk. destruct Hdis as [(_ & ->) | (dis & c & _ & _ & -> & _)]; [done|].
    by rewrite lookup_delete_ne. }
  split_and!.
  - intros key v Hkey Hv Hnn.
    assert (key = "DIODE_INSERTION_STRATEGY" ∨ key = "EXTRA_SPEFS") as [-> | ->]
      by (unfold legacy_key_names in Hkey; set_solver).
    + rewrite Hkeep by done.
      destruct Hdis as [(Hget & ->) | (dis & c & _ & _ & -> & _)].
      * apply get_not_None_None in Hget. simpl in Hget. naive_solver.
      * apply lookup_delete_eq.
    + apply Hgone. exists v. apply get_not_None_Some. by rewrite Hspef.
  - intros k Hk Hm.
    assert (k ≠ "DIODE_INSERTION_STRATEGY" ∧ k ≠ "EXTRA_SPEFS") as [? ?]
      by (unfold legacy_key_names in Hk; set_solver).
    rewrite Hkeep by done. by apply Hother.
  - intros k Hk. rewrite Hf.
    destruct Hdis as [(_ & ->) | (dis & c & _ & _ & _ & [(_ & _ & _ & ->) | (z & _ & _ & _ & _ & ->)])];
      try done.
    by rewrite strategy_keys_other.
Qed.

(** A flat list that is refused gives one error and no warning, and the
    block does not raise. *)
Lemma as_spef_list_alloc (h : Heap) l v :
  h !! l = None → as_spef_list (<[l := ODict []]> h) v = as_spef_list h v.
Proof.
  intros Hl. destruct v as [| | | | | |l0|]; try done. simpl.
  destruct (decide (l = l0)) as [->|Hne].
  - by rewrite lookup_insert_eq, Hl.
  - by rewrite lookup_insert_ne.
Qed.

Lemma fresh_unused (h : Heap) : h !! fresh (dom h) = None.
Proof. apply not_elem_of_dom. apply is_fresh. Qed.

Lemma migrate_extra_spefs_rejected st w v :
  get_not_None (mutable st) "EXTRA_SPEFS" = Some v →
  spefs_rejected (heap w) v →
  ∃ w1 st1 e,
    migrate_extra_spefs st w = (w1, inr st1) ∧
    errors st1 = (errors st ++ [e])%list ∧ warnings st1 = warnings st ∧
    final st1 = final st ∧ translated_macros st1 = translated_macros st ∧
    mutable st1 !! "EXTRA_SPEFS" = None.
Proof.
  intros Hget Hrej. unfold migrate_extra_spefs. rewrite Hget.
  destruct (take_extra_spefs_run st w) as (macros & w1 & Htake & _ & Hheap).
  erewrite bind_run by exact Htake.
  assert (as_spef_list (heap w1) v = as_spef_list (heap w) v) as Heq.
  { destruct Hheap as [-> | ->]; [done|]. apply as_spef_list_alloc, fresh_unused. }
  unfold spefs_rejected in Hrej. rewrite <- Heq in Hrej.
  unfold translate_extra_spefs, mbind, Py_bind, get_heap.
  destruct (as_spef_list (heap w1) v) as [items|].
  - destruct (Z.eqb_spec (Z.of_nat (List.length items) mod 4) 0) as [E|E]; [done|].
    simpl. eexists _, _, _. split; [done|]. simpl.
    split_and!; try done. apply lookup_delete_eq.
  - eexists _, _, _. split; [done|]. simpl.
    split_and!; try done. apply lookup_delete_eq.
Qed.

(** The state in which the keys that are left are reported. *)
Lemma process_variable_list_compiled self variables removed w w' f ws es :
  process_variable_list self variables removed w = (w', inr (f, ws, es)) →
  ∃ st1 w1 st w2,
    migrate_legacy_keys (initial self) w = (w1, inr st1) ∧
    compile_variables variables st1 w1 = (w2, inr st) ∧
    f = final st ∧ es = errors st ∧
    ws = (warnings st ++ leftover_warnings (default ∅ removed) (mutable st))%list.
Proof.
  intros H. apply process_variable_list_returns in H
    as (st1 & w1 & st2 & w2 & H1 & H2 & _ & -> & -> & ->).
  by exists st1, w1, st2, w2.
Qed.

(** C5 (as amended): after all variables are compiled, every key left in
    the working set that is not special and not in the removed table is
    reported as unknown exactly once when it does not contain ["_OPT"] and
    is not ["//"], and not at all when it contains ["_OPT"] anywhere or is
    ["//"]; such a key is not in the final configuration when it is
    neither the name of a variable of the list nor one of the three keys
    that the strategy migration sets. *)
Theorem leftover_keys_reported (self : Dict) (variables : list ConfigVariable)
    (removed : option (gmap string string)) (w w' : World)
    (f : Dict) (ws es : list string) :
  process_variable_list self variables removed w = (w', inr (f, ws, es)) →
  ∃ st1 w1 st w2,
    migrate_legacy_keys (initial self) w = (w1, inr st1) ∧
    compile_variables variables st1 w1 = (w2, inr st) ∧
    f = final st ∧
    ws = (warnings st ++ leftover_warnings (default ∅ removed) (mutable st))%list ∧
    ∀ key, is_Some (mutable st !! key) →
           key ∉ SpecialKeys.values → default ∅ removed !! key = None →
      (PyStr.contains "_OPT" key = false → key ≠ "//" →
         times (unknown_warning key)
           (leftover_warnings (default ∅ removed) (mutable st)) = 1%nat) ∧
      (PyStr.contains "_OPT" key = true ∨ key = "//" →
         times (unknown_warning key)
           (leftover_warnings (default ∅ removed) (mutable st)) = 0%nat) ∧
      (key ∉ name <$> variables → key ∉ strategy_key_names → f !! key = None).
Proof.
  intros H. apply process_variable_list_compiled in H
    as (st1 & w1 & st & w2 & H1 & H2 & -> & _ & ->).
  exists st1, w1, st, w2. split_and!; try done.
  intros key Hleft Hspecial Hremoved.
  rewrite times_leftover_warnings, decide_True by done.
  unfold reported_unknown.
  rewrite (bool_decide_eq_false_2 _ Hspecial), (bool_decide_eq_true_2 _ Hremoved).
  simpl. split_and!.
  - intros -> Hne. simpl. by apply String.eqb_neq in Hne as ->.
  - intros [-> | ->]; [done|]. by rewrite andb_false_r.
  - intros Hvar Hstrategy.
    destruct (compile_variables_errors _ _ _ _ _ H2) as (_ & _ & _ & _ & _ & Hk & _).
    rewrite Hk by done.
    by apply (migrate_legacy_keys_frame _ _ _ _ H1).
Qed.

Lemma leftover_keys_reported_witness :
  ∃ st1 w1 st w2,
    migrate_legacy_keys (initial {["FOO" := VInt 1]}) empty_world = (w1, inr st1) ∧
    compile_variables [] st1 w1 = (w2, inr st) ∧
    times (unknown_warning "FOO") (leftover_warnings ∅ (mutable st)) = 1%nat ∧
    final st !! "FOO" = None.
Proof.
  destruct (leftover_keys_reported {["FOO" := VInt 1]} [] None empty_world empty_world
              ∅ [unknown_warning "FOO"] [])
    as (st1 & w1 & st & w2 & H1 & H2 & Hf & _ & Hkeys); [vm_compute; reflexivity|].
  exists st1, w1, st, w2. split; [exact H1|]. split; [exact H2|].
  assert (mutable st = {["FOO" := VInt 1]}) as Hm.
  { vm_compute in H1. injection H1 as <- <-.
    vm_compute in H2. injection H2 as <- <-. reflexivity. }
  destruct (Hkeys "FOO") as (Hone & _ & Hfinal).
  - rewrite Hm. vm_compute. eauto.
  - vm_compute. intros Hin. repeat (inversion Hin as [|? ? ? Hin']; subst; clear Hin; rename Hin' into Hin).
  - reflexivity.
  - split; [by apply Hone|]. rewrite <- Hf. apply Hfinal.
    + vm_compute. intros Hin. inversion Hin.
    + vm_compute. intros Hin. repeat (inversion Hin as [|? ? ? Hin']; subst; clear Hin; rename Hin' into Hin).
Defined.

(** C5, as the specification words it, fails for a key that contains
    ["_OPT"] without ending in it: line 714 tests containment. *)
Lemma unknown_key_claim_fails :
  ¬ unknown_key_claim ∅ {["A_OPTB" := VInt 1]}.
Proof.
  intros Hclaim. specialize (Hclaim "A_OPTB").
  rewrite times_leftover_warnings in Hclaim.
  assert (is_Some (({["A_OPTB" := VInt 1]} : Dict) !! "A_OPTB")) as Hsome
    by (rewrite lookup_singleton_eq; eauto).
  rewrite decide_True in Hclaim by done.
  assert (reported_unknown ∅ "A_OPTB" = false) as Hr by reflexivity.
  rewrite Hr in Hclaim.
  assert (0 = 1)%nat as Habs; [|discriminate Habs].
  apply Hclaim; try done.
  unfold SpecialKeys.values, SpecialKeys.pdk_root, SpecialKeys.pdk, SpecialKeys.scl,
    SpecialKeys.design_dir. set_solver.
Qed.




(** ** The receiver and its working copy (lines 619-625, 658, 692) *)

(** C9: the working copy of line 625 is shallow, so line 658 binds the
    receiver's own ["MACROS"] dictionary in the working copy and line 692
    writes the translated macro into it: after a call that returns without
    errors the receiver's ["MACROS"] has a record more than before. *)
Theorem receiver_macros_are_mutated :
  ∃ w' f ws,
    process_variable_list one_macro_config [empty_macros_variable] None one_macro_world
      = (w', inr (f, ws, [])) ∧
    one_macro_config !! "MACROS" = Some (VRef 1%positive) ∧
    heap one_macro_world !! 1%positive = Some (ODict [(VStr "old", VNone)]) ∧
    heap w' !! 1%positive =
      Some (ODict [(VStr "old", VNone); (VStr "m", VRef 3%positive)]) ∧
    ¬ receiver_untouched one_macro_config one_macro_world w'.
Proof.
  eexists _, _, _. split; [vm_compute; reflexivity|].
  split; [reflexivity|]. split; [reflexivity|]. split; [reflexivity|].
  intros Hsame. specialize (Hsame "MACROS" 1%positive eq_refl).
  vm_compute in Hsame. discriminate Hsame.
Qed.

(** ** The flat list becomes macro records (lines 656-692) *)

Lemma alloc_run o w :
  alloc o w = ({| heap := <[fresh (dom (heap w)) := o]> (heap w); trace := trace w |},
               inr (fresh (dom (heap w)))).
Proof. done. Qed.

Lemma dict_get_set_eq d k v : dict_get (dict_set d k v) k = Some v.
Proof.
  induction d as [|[k' v'] d IH]; simpl.
  - by rewrite decide_True.
  - destruct (decide (hash_key k' = hash_key k)) as [E|E]; simpl.
    + by rewrite decide_True.
    + by rewrite decide_False.
Qed.

Lemma dict_get_set_ne d k v k' :
  hash_key k ≠ hash_key k' → dict_get (dict_set d k v) k' = dict_get d k'.
Proof.
  intros Hne. induction d as [|[k0 v0] d IH]; simpl.
  - by rewrite decide_False.
  - destruct (decide (hash_key k0 = hash_key k)) as [E|E]; simpl.
    + rewrite !decide_False; [done | congruence | congruence].
    + by rewrite IH.
Qed.

Lemma dict_set_length_new d k v :
  dict_get d k = None → List.length (dict_set d k v) = S (List.length d).
Proof.
  induction d as [|[k0 v0] d IH]; simpl; [done|].
  destruct (decide (hash_key k0 = hash_key k)); [done|].
  intros H. simpl. by rewrite IH.
Qed.

Lemma dict_set_length_old d k v :
  is_Some (dict_get d k) → List.length (dict_set d k v) = List.length d.
Proof.
  induction d as [|[k0 v0] d IH]; simpl; [by intros [? ?]|].
  destruct (decide (hash_key k0 = hash_key k)); [done|].
  intros H. simpl. by rewrite IH.
Qed.

Lemma hashable_scalar h v : is_scalar v → hashable h v = true.
Proof. by destruct v. Qed.

(** * Further properties of the validator *)

(** ** What makes the method raise *)

(** A strategy that is a list, a dictionary or an instance makes [int]
    raise [TypeError] at line 634; only [ValueError] is caught there, so
    the method raises whatever the variable list is, and returns no error
    list. *)
Theorem strategy_container_raises (self : Dict) (l : loc)
    (variables : list ConfigVariable) (removed : option (gmap string string)) (w : World) :
  self !! "DIODE_INSERTION_STRATEGY" = Some (VRef l) →
  ∃ msg, process_variable_list self variables removed w = (w, inl (TypeError msg)).
Proof.
  intros Hdis. eexists.
  unfold process_variable_list, migrate_legacy_keys.
  erewrite bind_raises; [done|]. erewrite bind_raises; [done|].
  unfold migrate_diode_insertion_strategy, get_not_None. simpl. rewrite Hdis. done.
Qed.

Lemma strategy_container_raises_witness :
  ∃ msg, process_variable_list {["DIODE_INSERTION_STRATEGY" := VRef 1%positive]} [] None
           empty_world = (empty_world, inl (TypeError msg)).
Proof.
  apply (strategy_container_raises {["DIODE_INSERTION_STRATEGY" := VRef 1%positive]}
           1%positive [] None empty_world).
  vm_compute. reflexivity.
Defined.

(** When the flat list has been translated, line 718 reads
    [final["MACROS"]]: if no variable of the list is called ["MACROS"],
    nothing has put that key into [final] and the method raises
    [KeyError] after all variables were compiled. *)
Theorem translated_macros_need_a_variable (self : Dict)
    (variables : list ConfigVariable) (removed : option (gmap string string))
    (w w1 w2 : World) (st1 st2 : Locals) :
  migrate_legacy_keys (initial self) w = (w1, inr st1) →
  translated_macros st1 = true →
  compile_variables variables st1 w1 = (w2, inr st2) →
  "MACROS" ∉ name <$> variables →
  process_variable_list self variables removed w = (w2, inl (KeyError "MACROS")).
Proof.
  intros H1 Htr H2 Hname.
  destruct (compile_variables_errors _ _ _ _ _ H2) as (_ & _ & Htr2 & _ & _ & Hk & _).
  destruct (migrate_legacy_keys_frame _ _ _ _ H1) as (_ & _ & Hfinal).
  assert (final st2 !! "MACROS" = None) as Hnone.
  { rewrite Hk by done. apply Hfinal. unfold strategy_key_names. set_solver. }
  unfold process_variable_list.
  erewrite bind_run by exact H1. erewrite bind_run by exact H2.
  erewrite bind_raises; [done|].
  unfold normalize_macros, report_leftover_keys. simpl.
  rewrite Htr2, Htr. unfold mbind, Py_bind, get_heap. by rewrite Hnone.
Qed.

Lemma translated_macros_need_a_variable_witness :
  ∃ w2, process_variable_list {["EXTRA_SPEFS" := VStr "m a b c"]} [] None empty_world
        = (w2, inl (KeyError "MACROS")).
Proof.
  destruct (migrate_legacy_keys (initial {["EXTRA_SPEFS" := VStr "m a b c"]}) empty_world)
    as [w1 [e|st1]] eqn:H1; [vm_compute in H1; discriminate H1|].
  exists w1.
  apply (translated_macros_need_a_variable _ [] None empty_world w1 w1 st1 st1 H1).
  - vm_compute in H1. injection H1 as <- <-. reflexivity.
  - reflexivity.
  - vm_compute. intros Hin. inversion Hin.
Defined.

(** ** The flat list, refused *)

(** A flat list that is not a text or a list, or whose length is not a
    multiple of four, costs one error and nothing else: no warning, no
    object but at most one new empty dictionary, nothing logged.  Lines
    658-661 have run before the test, so the key is gone and ["MACROS"]
    is bound in the working set although nothing was translated. *)
Theorem refused_flat_list_binds_macros (st : Locals) (w : World) (v : Value) :
  get_not_None (mutable st) "EXTRA_SPEFS" = Some v →
  spefs_rejected (heap w) v →
  ∃ w1 st1 e,
    migrate_extra_spefs st w = (w1, inr st1) ∧
    errors st1 = (errors st ++ [e])%list ∧
    (e = spef_invalid_count ∨ ∃ ty, e = spef_invalid_type ty) ∧
    warnings st1 = warnings st ∧ final st1 = final st ∧
    translated_macros st1 = translated_macros st ∧
    mutable st1 !! "EXTRA_SPEFS" = None ∧
    is_Some (mutable st1 !! "MACROS") ∧
    trace w1 = trace w ∧
    (heap w1 = heap w ∨ heap w1 = <[fresh (dom (heap w)) := ODict []]> (heap w)).
Proof.
  intros Hget Hrej.
  destruct (migrate_extra_spefs_rejected st w v Hget Hrej)
    as (w1 & st1 & e & Hrun & He & Hw & Hf & Ht & Hgone).
  exists w1, st1, e. split; [done|]. split; [done|].
  pose proof Hrun as Hrun'.
  apply migrate_extra_spefs_cases in Hrun' as [(Hnone & _) | (v' & macros & _ & Hcase)].
  { congruence. }
  unfold migrate_extra_spefs in Hrun. rewrite Hget in Hrun.
  destruct (take_extra_spefs_run st w) as (macros' & w0 & Htake & Htr & Hheap).
  erewrite bind_run in Hrun by exact Htake.
  assert (w1 = w0) as ->.
  { unfold translate_extra_spefs, mbind, Py_bind, get_heap in Hrun.
    destruct (as_spef_list (heap w0) v) as [items|] eqn:Hl.
    - destruct (negb _) eqn:Hn; [by injection Hrun as <- _|].
      exfalso. unfold spefs_rejected in Hrej.
      assert (as_spef_list (heap w0) v = as_spef_list (heap w) v) as Heq.
      { destruct Hheap as [-> | ->]; [done|]. apply as_spef_list_alloc, fresh_unused. }
      rewrite <- Heq, Hl in Hrej. apply negb_false_iff, Z.eqb_eq in Hn. done.
    - by injection Hrun as <- _. }
  assert (is_Some (mutable st1 !! "MACROS")) as Hm.
  { destruct Hcase as [[ty ->] | [-> | ->]]; simpl;
      rewrite lookup_delete_ne, lookup_insert_eq by done; by eexists. }
  split.
  { destruct Hcase as [[ty ->] | [-> | ->]]; simpl in He.
    - apply app_inv_head in He. injection He as <-. right. by exists ty.
    - apply app_inv_head in He. injection He as <-. by left.
    - exfalso. apply (f_equal List.length) in He. rewrite length_app in He.
      simpl in He. lia. }
  by split_and!.
Qed.

Lemma refused_flat_list_binds_macros_witness :
  ∃ w1 st1 e,
    migrate_extra_spefs (initial {["EXTRA_SPEFS" := VStr "a b c"]}) empty_world
      = (w1, inr st1) ∧
    errors st1 = ([] ++ [e])%list ∧ is_Some (mutable st1 !! "MACROS").
Proof.
  destruct (refused_flat_list_binds_macros
              (initial {["EXTRA_SPEFS" := VStr "a b c"]}) empty_world (VStr "a b c"))
    as (w1 & st1 & e & Hrun & He & _ & _ & _ & _ & _ & Hm & _).
  - vm_compute. reflexivity.
  - vm_compute. discriminate.
  - exists w1, st1, e. by split_and!.
Defined.

(** ** The placeholder of translated macros (lines 717-720) *)

Lemma attr_get_set attrs a v : attr_get (attr_set attrs a v) a = Some v.
Proof.
  induction attrs as [|[a' v'] attrs IH]; simpl.
  - by rewrite String.eqb_refl.
  - destruct (String.eqb a' a) eqn:E; simpl; by rewrite E.
Qed.

Lemma normalized_idem o : normalized (normalized o) = normalized o.
Proof.
  destruct o as [items|entries|cls attrs]; try done. simpl.
  destruct (attr_get attrs "gds") as [gds|] eqn:Hg; simpl; [|by rewrite Hg].
  destruct (is_dev_null gds) eqn:Hd; simpl.
  - by rewrite attr_get_set.
  - by rewrite Hg, Hd.
Qed.

Lemma normalize_gds_run h tr m cls attrs :
  h !! m = Some (OInst cls attrs) → is_Some (attr_get attrs "gds") →
  normalize_gds (VRef m) tt {| heap := h; trace := tr |} =
  ({| heap := <[m := normalized (OInst cls attrs)]> h; trace := tr |}, inr tt).
Proof.
  intros Hm [gds Hg]. unfold normalize_gds, mbind, Py_bind, get_heap, put_heap.
  simpl. rewrite Hm, Hg. destruct (is_dev_null gds); [done|].
  by rewrite insert_id.
Qed.

Lemma is_macro_normalized h m o v :
  h !! m = Some o → is_macro h v → is_macro (<[m := normalized o]> h) v.
Proof.
  intros Hm (m' & cls & attrs & -> & Hm' & Hg).
  destruct (decide (m = m')) as [->|Hne].
  - rewrite Hm in Hm'. injection Hm' as ->. simpl.
    destruct Hg as [gds Hg]. rewrite Hg.
    destruct (is_dev_null gds).
    + exists m', cls, (attr_set attrs "gds" (VPath "")).
      rewrite lookup_insert_eq, attr_get_set. by eauto.
    + exists m', cls, attrs. rewrite lookup_insert_eq. by eauto.
  - exists m', cls, attrs. rewrite lookup_insert_ne by done. by eauto.
Qed.

Lemma normalize_all_run vs : ∀ h tr,
  Forall (is_macro h) vs →
  ∃ h', for_each vs normalize_gds tt {| heap := h; trace := tr |} =
          ({| heap := h'; trace := tr |}, inr tt) ∧
        (∀ m, VRef m ∈ vs → h' !! m = normalized <$> h !! m) ∧
        (∀ m, VRef m ∉ vs → h' !! m = h !! m).
Proof.
  induction vs as [|v vs IH]; intros h tr Hall.
  - exists h. split; [done|]. split; [|done]. intros m Hin. by apply elem_of_nil in Hin.
  - apply Forall_cons in Hall as [Hv Hall].
    destruct Hv as (m0 & cls & attrs & -> & Hm0 & Hg).
    destruct (IH (<[m0 := normalized (OInst cls attrs)]> h) tr) as (h' & Hrun & Hin & Hout).
    { eapply Forall_impl; [exact Hall|]. intros v. by apply is_macro_normalized. }
    exists h'. split.
    { simpl. erewrite bind_run by (by apply normalize_gds_run). exact Hrun. }
    split.
    + intros m Hm. destruct (decide (VRef m ∈ vs)) as [Hvs|Hvs].
      * rewrite Hin by done. destruct (decide (m0 = m)) as [->|Hne].
        -- rewrite lookup_insert_eq, Hm0.
           exact (f_equal Some (normalized_idem (OInst cls attrs))).
        -- by rewrite lookup_insert_ne.
      * rewrite Hout by done.
        assert (m = m0) as -> by (apply elem_of_cons in Hm as [[= ->]|]; done).
        by rewrite lookup_insert_eq, Hm0.
    + intros m Hm. apply not_elem_of_cons in Hm as [Hne Hvs].
      rewrite Hout by done. rewrite lookup_insert_ne; [done|]. congruence.
Qed.

(** After a translation, every macro of the final table whose [gds] is
    the text ["/dev/null"] gets the empty path, once, however many names
    it is bound to; macros with another [gds] and all objects outside
    the table are as they were, and nothing is logged. *)
Theorem placeholder_becomes_empty_path (st : Locals) (w : World) (l : loc)
    (entries : list (Value * Value)) :
  translated_macros st = true →
  final st !! "MACROS" = Some (VRef l) →
  heap w !! l = Some (ODict entries) →
  Forall (is_macro (heap w)) entries.*2 →
  ∃ h', normalize_macros st w = ({| heap := h'; trace := trace w |}, inr tt) ∧
        (∀ m, VRef m ∈ entries.*2 → h' !! m = normalized <$> heap w !! m) ∧
        (∀ m, VRef m ∉ entries.*2 → h' !! m = heap w !! m).
Proof.
  intros Ht Hf Hl Hall.
  destruct (normalize_all_run entries.*2 (heap w) (trace w) Hall) as (h' & Hrun & Hin & Hout).
  exists h'. split; [|done].
  unfold normalize_macros. rewrite Ht. unfold mbind, Py_bind, get_heap.
  rewrite Hf, Hl. destruct w. exact Hrun.
Qed.

Lemma placeholder_becomes_empty_path_witness :
  ∃ h', normalize_macros
          {| warnings := []; errors := []; final := {["MACROS" := VRef 1%positive]};
             mutable := ∅; translated_macros := true |}
          {| heap := {[ 1%positive := ODict [(VStr "m", VRef 2%positive)];
                        2%positive := OInst "Macro" [("gds", VStr "/dev/null")] ]};
             trace := [] |}
        = ({| heap := h'; trace := [] |}, inr tt) ∧
        h' !! 2%positive = Some (OInst "Macro" [("gds", VPath "")]).
Proof.
  destruct (placeholder_becomes_empty_path
              {| warnings := []; errors := []; final := {["MACROS" := VRef 1%positive]};
                 mutable := ∅; translated_macros := true |}
              {| heap := {[ 1%positive := ODict [(VStr "m", VRef 2%positive)];
                            2%positive := OInst "Macro" [("gds", VStr "/dev/null")] ]};
                 trace := [] |}
              1%positive [(VStr "m", VRef 2%positive)])
    as (h' & Hrun & Hin & _).
  - reflexivity.
  - reflexivity.
  - reflexivity.
  - repeat constructor. exists 2%positive, "Macro", [("gds", VStr "/dev/null")].
    split; [reflexivity|]. split; [reflexivity|]. by eexists.
  - exists h'. split; [exact Hrun|].
    etrans; [apply (Hin 2%positive); simpl; constructor|]. reflexivity.
Defined.

(** ** What the compile loop leaves in the final configuration *)

Lemma compile_variable_final variable st w w1 st1 :
  compile_variable variable st w = (w1, inr st1) →
  match attempt variable st w with
  | CompileOk _ value => final st1 !! name variable = Some value
  | CompileError _ => final st1 = final st
  end.
Proof.
  rewrite compile_variable_run. unfold attempt.
  destruct (compile variable (heap w) (mutable st) (final st)) as [[h' ws] r].
  simpl. destruct r as [[key|] value|msg].
  - destruct (decide _); [|done]. intros [= <- <-]. simpl. apply lookup_insert_eq.
  - intros [= <- <-]. simpl. apply lookup_insert_eq.
  - by intros [= <- <-].
Qed.

(** When no two variables share a name, the final configuration binds
    each variable that compiled to the value its own [compile] answered
    in the state the loop had reached, and leaves the name of each
    variable that failed as it was before the loop. *)
Theorem compiled_values_are_final (variables : list ConfigVariable) :
  NoDup (name <$> variables) →
  ∀ st w w' st', compile_variables variables st w = (w', inr st') →
  ∀ i variable, variables !! i = Some variable →
    match outcomes variables st w !! i with
    | Some (CompileOk _ value) => final st' !! name variable = Some value
    | Some (CompileError _) => final st' !! name variable = final st !! name variable
    | None => False
    end.
Proof.
  induction variables as [|v0 vs IH]; intros Hnd st w w' st' Hrun i variable Hi.
  { by rewrite lookup_nil in Hi. }
  rewrite fmap_cons in Hnd. apply NoDup_cons in Hnd as [Hnotin Hnd].
  unfold compile_variables in Hrun. simpl in Hrun.
  apply bind_returns in Hrun as (st1 & w1 & H1 & H2).
  fold (compile_variables vs st1 w1) in H2.
  destruct (compile_variables_errors _ _ _ _ _ H2) as (_ & _ & _ & _ & _ & Hk & _).
  destruct (compile_variable_errors _ _ _ _ _ H1) as (_ & _ & _ & _ & Hk1 & _).
  pose proof (compile_variable_final _ _ _ _ _ H1) as Hown.
  simpl. rewrite H1.
  destruct i as [|j]; simpl in *.
  - injection Hi as <-. rewrite Hk by done.
    destruct (attempt v0 st w); [done | by rewrite Hown].
  - specialize (IH Hnd _ _ _ _ H2 j variable Hi).
    destruct (outcomes vs st1 w1 !! j) as [[key value|msg]|]; [done | | done].
    rewrite IH. apply Hk1. intros Heq. apply Hnotin. rewrite <- Heq.
    apply list_elem_of_fmap. exists variable. split; [done|].
    by eapply list_elem_of_lookup_2.
Qed.

Lemma compiled_values_are_final_witness :
  ∃ w' st',
    compile_variables [failing_variable "A" "bad"; constant_variable "B" (VInt 1)]
      (initial ∅) empty_world = (w', inr st') ∧
    final st' !! "B" = Some (VInt 1) ∧ final st' !! "A" = None.
Proof.
  destruct (compile_variables [failing_variable "A" "bad"; constant_variable "B" (VInt 1)]
              (initial ∅) empty_world) as [w' [e|st']] eqn:Hrun;
    [vm_compute in Hrun; discriminate Hrun|].
  exists w', st'. split; [reflexivity|].
  assert (NoDup (name <$> [failing_variable "A" "bad"; constant_variable "B" (VInt 1)]))
    as Hnd.
  { simpl. apply NoDup_cons. split; [|apply NoDup_singleton].
    intros Hin. apply list_elem_of_singleton in Hin. discriminate Hin. }
  split.
  - exact (compiled_values_are_final _ Hnd _ _ _ _ Hrun 1%nat
             (constant_variable "B" (VInt 1)) eq_refl).
  - exact (compiled_values_are_final _ Hnd _ _ _ _ Hrun 0%nat
             (failing_variable "A" "bad") eq_refl).
Defined.

(** ** Keys of the removed table (lines 707-713) *)

Lemma elem_of_leftover_warnings removed (m : Dict) msg :
  msg ∈ leftover_warnings removed m ↔
  ∃ k, is_Some (m !! k) ∧ msg ∈ leftover_warning removed k.
Proof.
  unfold leftover_warnings. rewrite list_elem_of_bind.
  split; intros (k & H1 & H2); exists k.
  - by rewrite <- sorted_keys_elem.
  - by rewrite sorted_keys_elem.
Qed.

(** A key that is left in the working set and is in the removed table is
    announced as removed, with the note of the table, and is not reported
    as unknown, unless it is a special key. *)
Theorem removed_keys_are_announced (removed : gmap string string) (m : Dict)
    (k note : string) :
  is_Some (m !! k) → k ∉ SpecialKeys.values → removed !! k = Some note →
  removed_warning k note ∈ leftover_warnings removed m ∧
  unknown_warning k ∉ leftover_warnings removed m.
Proof.
  intros Hk Hsp Hr. split.
  - apply elem_of_leftover_warnings. exists k. split; [done|].
    unfold leftover_warning. rewrite bool_decide_eq_false_2 by done.
    rewrite Hr. apply list_elem_of_singleton. done.
  - intros Hin. apply list_elem_of_In in Hin.
    apply (count_occ_In string_dec) in Hin.
    fold (times (unknown_warning k) (leftover_warnings removed m)) in Hin.
    rewrite times_leftover_warnings in Hin.
    rewrite decide_True in Hin by done.
    unfold reported_unknown in Hin. rewrite Hr in Hin.
    rewrite (bool_decide_eq_false_2 (Some note = None)) in Hin by done.
    rewrite andb_false_r in Hin. simpl in Hin. lia.
Qed.

Lemma removed_keys_are_announced_witness :
  removed_warning "OLD" "use NEW" ∈
    leftover_warnings {["OLD" := "use NEW"]} {["OLD" := VInt 1]} ∧
  unknown_warning "OLD" ∉ leftover_warnings {["OLD" := "use NEW"]} {["OLD" := VInt 1]}.
Proof.
  apply (removed_keys_are_announced {["OLD" := "use NEW"]} {["OLD" := VInt 1]}
           "OLD" "use NEW").
  - vm_compute. by eexists.
  - vm_compute. intros Hin.
    repeat (apply elem_of_cons in Hin as [Hin|Hin]; [discriminate Hin|]).
    by apply elem_of_nil in Hin.
  - reflexivity.
Defined.

(** ** A second pass over the result *)

(** The method's result is not a configuration the method accepts again
    as it is: the three keys that an accepted strategy sets are no raw
    keys of any variable, so a second pass with an empty variable list
    drops them and reports each as unknown. *)
Theorem strategy_keys_are_lost_on_a_second_pass (dis : Value) (z : Z) (w : World) :
  int_or_keep dis = inr (AsInt z) → ¬ refused (AsInt z) →
  process_variable_list {["DIODE_INSERTION_STRATEGY" := dis]} [] None w =
    (w, inr (strategy_keys z ∅, [dis_deprecated], [])) ∧
  process_variable_list (strategy_keys z ∅) [] None w =
    (w, inr (∅, [unknown_warning "DIODE_ON_PORTS";
                 unknown_warning "GRT_REPAIR_ANTENNAS";
                 unknown_warning "RUN_HEURISTIC_DIODE_INSERTION"], [])).
Proof.
  intros Hint Href. split.
  - assert (Z_in z [1; 2; 5] || (6 <? z) = false) as Hguard.
    { destruct (Z_in z [1; 2; 5] || (6 <? z)) eqn:E; [|done].
      exfalso. apply Href. by apply (refused_dec (AsInt z)). }
    assert (get_not_None {["DIODE_INSERTION_STRATEGY" := dis]} "DIODE_INSERTION_STRATEGY"
            = Some dis) as Hget.
    { apply get_not_None_Some. split; [apply lookup_singleton_eq|].
      intros ->. discriminate Hint. }
    unfold process_variable_list, migrate_legacy_keys, migrate_diode_insertion_strategy.
    simpl. rewrite Hget, Hint, Hguard. rewrite delete_singleton_eq.
    simpl. generalize (strategy_keys z ∅). intros f. reflexivity.
  - unfold strategy_keys.
    destruct (Z_in z [3; 6]), (Z_in z [5; 6]); vm_compute; reflexivity.
Qed.

Lemma strategy_keys_are_lost_on_a_second_pass_witness :
  process_variable_list (strategy_keys 3 ∅) [] None empty_world =
    (empty_world, inr (∅, [unknown_warning "DIODE_ON_PORTS";
                           unknown_warning "GRT_REPAIR_ANTENNAS";
                           unknown_warning "RUN_HEURISTIC_DIODE_INSERTION"], [])).
Proof.
  apply (strategy_keys_are_lost_on_a_second_pass (VInt 3) 3 empty_world).
  - reflexivity.
  - vm_compute. intros [Hin | Hlt]; [|discriminate Hlt].
    repeat (apply elem_of_cons in Hin as [Hin|Hin]; [discriminate Hin|]).
    by apply elem_of_nil in Hin.
Defined.

(** ** The validator does not log *)

Lemma quiet_ret {A} (a : A) : quiet (mret a : Py A).
Proof. by intros w. Qed.

Lemma quiet_raise {A} (e : Exn) : quiet (raise e : Py A).
Proof. by intros w. Qed.

Lemma quiet_get_heap : quiet get_heap.
Proof. by intros w. Qed.

Lemma quiet_put_heap h : quiet (put_heap h).
Proof. by intros w. Qed.

Lemma quiet_bind {A B} (m : Py A) (f : A → Py B) :
  quiet m → (∀ a, quiet (f a)) → quiet (m ≫= f).
Proof.
  intros Hm Hf w. unfold mbind, Py_bind. specialize (Hm w).
  destruct (m w) as [w1 [e|a]]; simpl in *; [done|].
  by rewrite Hf.
Qed.

Lemma quiet_alloc o : quiet (alloc o).
Proof.
  unfold alloc. apply quiet_bind; [apply quiet_get_heap|]. intros h.
  apply quiet_bind; [apply quiet_put_heap|]. intros _. apply quiet_ret.
Qed.

Lemma quiet_for_each {A S} (xs : list A) (body : A → S → Py S) :
  (∀ x s, quiet (body x s)) → ∀ s, quiet (for_each xs body s).
Proof.
  intros Hbody. induction xs as [|x xs IH]; intros s; simpl.
  - apply quiet_ret.
  - apply quiet_bind; [apply Hbody | apply IH].
Qed.

Ltac quiet_step :=
  first [ apply quiet_ret | apply quiet_raise | apply quiet_get_heap
        | apply quiet_put_heap | apply quiet_alloc
        | apply quiet_bind; [|intros ?] ].

Lemma quiet_setitem target key value : quiet (setitem target key value).
Proof.
  unfold setitem. apply quiet_bind; [apply quiet_get_heap|]. intros h.
  repeat case_match; quiet_step.
Qed.

Lemma quiet_new_macro_dict module min nom max :
  quiet (new_macro_dict module min nom max).
Proof.
  unfold new_macro_dict.
  repeat (apply quiet_bind; [first [apply quiet_alloc | apply quiet_setitem]|intros ?]).
  apply quiet_ret.
Qed.

Lemma quiet_translate_quadruple q st : quiet (translate_quadruple q st).
Proof.
  destruct q as [[[module min] nom] max]. unfold translate_quadruple.
  apply quiet_bind; [apply quiet_new_macro_dict|]. intros md.
  case_match; [|apply quiet_raise].
  apply quiet_bind; [apply quiet_setitem|]. intros _. apply quiet_ret.
Qed.

Lemma quiet_migrate_legacy_keys st : quiet (migrate_legacy_keys st).
Proof.
  unfold migrate_legacy_keys. apply quiet_bind.
  - unfold migrate_diode_insertion_strategy. repeat case_match; quiet_step.
  - intros st0. unfold migrate_extra_spefs. case_match; [|apply quiet_ret].
    apply quiet_bind.
    + unfold take_extra_spefs. apply quiet_bind; [apply quiet_get_heap|]. intros h.
      apply quiet_bind; [|intros ?; apply quiet_ret].
      repeat case_match; repeat quiet_step.
    + intros st1. unfold translate_extra_spefs.
      apply quiet_bind; [apply quiet_get_heap|]. intros h.
      repeat case_match; try quiet_step.
      apply quiet_for_each. apply quiet_translate_quadruple.
Qed.

Lemma quiet_compile_variable variable st : quiet (compile_variable variable st).
Proof. intros w. rewrite compile_variable_run. by repeat case_match. Qed.

Lemma quiet_normalize_macros st : quiet (normalize_macros st).
Proof.
  unfold normalize_macros. case_match; [|apply quiet_ret].
  apply quiet_bind; [apply quiet_get_heap|]. intros h.
  repeat case_match; try quiet_step.
  apply quiet_for_each. intros macro []. unfold normalize_gds.
  apply quiet_bind; [apply quiet_get_heap|]. intros h'.
  repeat case_match; quiet_step.
Qed.

Lemma quiet_process_variable_list self variables removed :
  quiet (process_variable_list self variables removed).
Proof.
  unfold process_variable_list.
  apply quiet_bind; [apply quiet_migrate_legacy_keys|]. intros st1.
  apply quiet_bind.
  { unfold compile_variables. apply quiet_for_each. apply quiet_compile_variable. }
  intros st2. apply quiet_bind; [apply quiet_normalize_macros|]. intros _.
  apply quiet_ret.
Qed.

(** The method reports through the lists it returns: whether it returns
    or raises, and whatever [compile] does, it adds nothing to the log. *)
Theorem validator_never_logs (self : Dict) (variables : list ConfigVariable)
    (removed : option (gmap string string)) (w : World) :
  trace (process_variable_list self variables removed w).1 = trace w.
Proof. apply quiet_process_variable_list. Qed.

(** ** Override strings (lines 374-376 and 490-492) *)

Lemma split_once_app sep key value :
  sep ∉ PyStr.chars key →
  PyStr.split_once sep (key ++ String sep value) = Some (key, value).
Proof.
  unfold PyStr.chars. induction key as [|c key IH]; simpl; intros Hnot.
  - by rewrite Ascii.eqb_refl.
  - apply not_elem_of_cons in Hnot as [Hne Hnot].
    destruct (Ascii.eqb_spec c sep) as [->|_]; [done|].
    by rewrite IH.
Qed.

Lemma split_once_None sep s :
  sep ∉ PyStr.chars s → PyStr.split_once sep s = None.
Proof.
  unfold PyStr.chars. induction s as [|c s IH]; simpl; intros Hnot; [done|].
  apply not_elem_of_cons in Hnot as [Hne Hnot].
  destruct (Ascii.eqb_spec c sep) as [->|_]; [done|].
  by rewrite IH.
Qed.

Lemma split_once_Some sep s key value :
  PyStr.split_once sep s = Some (key, value) →
  s = key ++ String sep value ∧ sep ∉ PyStr.chars key.
Proof.
  unfold PyStr.chars. revert key value.
  induction s as [|c s IH]; simpl; intros key value H; [done|].
  destruct (Ascii.eqb_spec c sep) as [->|Hne].
  - injection H as <- <-. split; [done|]. simpl. apply not_elem_of_nil.
  - destruct (PyStr.split_once sep s) as [[k v]|]; [|done].
    injection H as <- <-. destruct (IH k v eq_refl) as [-> Hnot].
    split; [done|]. simpl. apply not_elem_of_cons. split; [congruence | done].
Qed.

(** An override string is cut at its first ["="]: what is before it is
    the key, what is after it, further signs included, is the value, and
    the value is bound as a text. *)
Theorem override_is_cut_at_the_first_sign (key value : string) (raw : Dict) (w : World) :
  "="%char ∉ PyStr.chars key →
  apply_override (key ++ String "=" value) raw w = (w, inr (<[key := VStr value]> raw)).
Proof.
  intros Hnot. unfold apply_override. by rewrite split_once_app.
Qed.

Lemma override_is_cut_at_the_first_sign_witness :
  apply_override "A=b=c" ∅ empty_world = (empty_world, inr (<["A" := VStr "b=c"]> ∅)).
Proof.
  apply (override_is_cut_at_the_first_sign "A" "b=c" ∅ empty_world).
  vm_compute. intros Hin.
  repeat (apply elem_of_cons in Hin as [Hin|Hin]; [discriminate Hin|]).
  by apply elem_of_nil in Hin.
Defined.

Lemma overrides_malformed (overrides : list string) (s : string) :
  s ∈ overrides → "="%char ∉ PyStr.chars s →
  ∀ raw w, ∃ msg, for_each overrides apply_override raw w = (w, inl (ValueError msg)).
Proof.
  intros Hin Hnot. induction overrides as [|x xs IH]; intros raw w.
  { by apply elem_of_nil in Hin. }
  simpl. unfold mbind, Py_bind. unfold apply_override at 1.
  destruct (PyStr.split_once "=" x) as [[k v]|] eqn:Hx.
  - simpl. apply IH. apply elem_of_cons in Hin as [->|Hin]; [|done].
    by rewrite split_once_None in Hx.
  - by eexists.
Qed.

(** One override string without ["="] makes [_load_dict] raise
    [ValueError] from the unpacking of line 375: the resolver has not
    been called, no file has been looked for, nothing is logged and no
    object is built; the exception is not an [InvalidConfig]. *)
Theorem malformed_override_stops_the_load (out : Outside) (raw : Dict) (a : LoadArgs)
    (s : string) (w : World) :
  s ∈ config_override_strings a → "="%char ∉ PyStr.chars s →
  ∃ msg, _load_dict out raw a w = (w, inl (ValueError msg)).
Proof.
  intros Hin Hnot. unfold _load_dict.
  set (raw0 := if get_not_None raw "meta" is Some _ then delete "meta" raw else raw).
  destruct (overrides_malformed _ s Hin Hnot raw0 w) as [msg Hrun].
  exists msg. by erewrite bind_raises.
Qed.

Lemma overrides_returned (overrides : list string) :
  ∀ raw w w' raw',
    for_each overrides apply_override raw w = (w', inr raw') →
    w' = w ∧ ∀ k, raw' !! k = raw !! k ∨ ∃ v, raw' !! k = Some (VStr v).
Proof.
  induction overrides as [|x xs IH]; intros raw w w' raw' H; simpl in H.
  - injection H as <- <-. split; [done|]. by left.
  - apply bind_returns in H as (raw1 & w1 & H1 & H2).
    unfold apply_override in H1.
    destruct (PyStr.split_once "=" x) as [[key value]|]; [|done].
    injection H1 as <- <-. destruct (IH _ _ _ _ H2) as [-> Hk].
    split; [done|]. intros k. destruct (Hk k) as [Heq|Hv]; [|by right].
    rewrite Heq. destruct (decide (key = k)) as [->|Hne].
    + right. exists value. apply lookup_insert_eq.
    + left. by apply lookup_insert_ne.
Qed.

(** What the override strings do to the raw configuration: every key is
    either bound as it was or bound to a text; the overrides never bind
    a number, a list or a dictionary, and they change nothing else. *)
Theorem overrides_bind_texts (overrides : list string) (raw raw' : Dict) (w w' : World) :
  for_each overrides apply_override raw w = (w', inr raw') →
  w' = w ∧ ∀ k, raw' !! k = raw !! k ∨ ∃ v, raw' !! k = Some (VStr v).
Proof. apply overrides_returned. Qed.

Lemma overrides_bind_texts_witness :
  for_each ["N=1"] apply_override ∅ empty_world =
    (empty_world, inr (<["N" := VStr "1"]> ∅)) ∧
  ((<["N" := VStr "1"]> ∅ : Dict) !! "N" = (∅ : Dict) !! "N" ∨
   ∃ v, (<["N" := VStr "1"]> ∅ : Dict) !! "N" = Some (VStr v)).
Proof.
  split; [reflexivity|].
  apply (overrides_bind_texts ["N=1"] ∅ (<["N" := VStr "1"]> ∅) empty_world empty_world).
  reflexivity.
Defined.

Lemma malformed_override_stops_the_load_witness :
  ∃ msg, _load_dict bare_outside ∅ (with_overrides ["A=1"; "B"] bare_args) empty_world
         = (empty_world, inl (ValueError msg)).
Proof.
  apply (malformed_override_stops_the_load bare_outside ∅
           (with_overrides ["A=1"; "B"] bare_args) "B" empty_world).
  - simpl. apply elem_of_cons. right. apply elem_of_cons. by left.
  - vm_compute. intros Hin.
    repeat (apply elem_of_cons in Hin as [Hin|Hin]; [discriminate Hin|]).
    by apply elem_of_nil in Hin.
Defined.

(** ** What the validator raises *)
















(** ** Every failure is reported (lines 694-705, 408-431) *)







(** ** [load]: what is checked first *)

(** [design_dir] must be given with a dictionary and must not be given
    with a path: otherwise [load] raises [TypeError] at once, before the
    technology root is resolved and before any file is touched. *)
Theorem load_checks_design_dir_first (out : Outside) (config_in : ConfigIn)
    (flow_config_vars : list ConfigVariable) (config_override_strings : option (list string))
    (pdk pdk_root scl design_dir : option string) (w : World) :
  match config_in with
  | InPath _ => is_Some design_dir
  | InDict _ => design_dir = None
  end →
  ∃ msg, load out config_in flow_config_vars config_override_strings
           pdk pdk_root scl design_dir w = (w, inl (TypeError msg)).
Proof.
  destruct config_in as [raw|path]; simpl.
  - intros ->. by eexists.
  - intros [d ->]. by eexists.
Qed.

Lemma load_checks_design_dir_first_witness :
  ∃ msg, load bare_outside (InDict ∅) [] None None None None None empty_world
         = (empty_world, inl (TypeError msg)).
Proof.
  apply (load_checks_design_dir_first bare_outside (InDict ∅) [] None None None None None
           empty_world).
  reflexivity.
Defined.

(** A path that ends neither in [.json] nor in [.tcl] is never opened:
    [load] asks whether it is a directory and raises [ValueError]. *)
Theorem unsupported_extension_opens_nothing (out : Outside) (path : string)
    (flow_config_vars : list ConfigVariable) (config_override_strings : option (list string))
    (pdk pdk_root scl : option string) (w : World) :
  PyStr.endswith (abspath out path) ".json" = false →
  PyStr.endswith (abspath out path) ".tcl" = false →
  ∃ msg, load out (InPath path) flow_config_vars config_override_strings
           pdk pdk_root scl None w =
         ({| heap := heap w; trace := trace w ++ [EvIsDir (abspath out path)] |},
          inl (ValueError msg)).
Proof.
  intros Hj Ht. unfold load. rewrite Hj, Ht.
  unfold mbind, Py_bind, emit. simpl. destruct (isdir out (abspath out path)); by eexists.
Qed.

Lemma unsupported_extension_opens_nothing_witness :
  ∃ msg, load bare_outside (InPath "/d/config.yaml") [] None None None None None
           empty_world =
         ({| heap := ∅; trace := [EvIsDir "/d/config.yaml"] |}, inl (ValueError msg)).
Proof.
  apply (unsupported_extension_opens_nothing bare_outside "/d/config.yaml" [] None
           None None None empty_world); reflexivity.
Defined.

(** A configuration file that cannot be read makes [load] raise the
    [OSError] of [open]: this comes before the technology root is
    resolved, so it is what is raised even when Volare is missing and no
    root was given. *)
Theorem unreadable_file_raises_first (out : Outside) (path : string)
    (flow_config_vars : list ConfigVariable) (config_override_strings : option (list string))
    (pdk pdk_root scl : option string) (w : World) :
  PyStr.endswith (abspath out path) ".json" || PyStr.endswith (abspath out path) ".tcl"
    = true →
  file_text out (abspath out path) = None →
  load out (InPath path) flow_config_vars config_override_strings pdk pdk_root scl None w =
    ({| heap := heap w; trace := trace w ++ [EvOpen (abspath out path)] |},
     inl (OSError (abspath out path))).
Proof.
  intros Hext Hfile. unfold load.
  assert (read_file out (abspath out path) w =
          ({| heap := heap w; trace := trace w ++ [EvOpen (abspath out path)] |},
           inl (OSError (abspath out path)))) as Hread.
  { unfold read_file, mbind, Py_bind, emit. simpl. by rewrite Hfile. }
  destruct (PyStr.endswith (abspath out path) ".json").
  - by erewrite bind_raises.
  - simpl in Hext. rewrite Hext. by erewrite bind_raises.
Qed.

Lemma unreadable_file_raises_first_witness :
  load bare_outside (InPath "/d/config.json") [] None None None None None empty_world =
    ({| heap := ∅; trace := [EvOpen "/d/config.json"] |}, inl (OSError "/d/config.json")).
Proof.
  apply (unreadable_file_raises_first bare_outside "/d/config.json" [] None None None None
           empty_world); reflexivity.
Defined.

(** ** The technology is looked for *)

Lemma get_pdk_config_missing (out : Outside) (pdk_name : string)
    (scl : option string) (pdk_root : string) (full_pdk_warnings : bool) (w : World) :
  path_exists out (join out pdk_root pdk_name) = false →
  _get_pdk_config out (VStr pdk_name) scl pdk_root full_pdk_warnings w =
    ({| heap := heap w;
        trace := trace w ++ [EvExists (join out pdk_root pdk_name);
                             EvGlob (join out pdk_root pdk_name ++ "*")] |},
     inl (InvalidConfig "PDK configuration"
            ((λ m, "A similarly-named PDK was found: " ++ basename out m) <$>
               glob out (join out pdk_root pdk_name ++ "*"))
            ["The PDK " ++ pdk_name ++ " was not found."])).
Proof.
  intros Hno. unfold _get_pdk_config, fspath, mbind, Py_bind, mret, Py_ret, emit, raise.
  simpl. rewrite Hno. simpl. by rewrite <- app_assoc.
Qed.

(** A technology directory that does not exist is an [InvalidConfig] for
    the ["PDK configuration"] with one error and one warning for each
    similarly named directory: no file is opened, no object is built. *)
Theorem missing_pdk_is_an_invalid_config (out : Outside) (pdk_name : string)
    (scl : option string) (pdk_root : string) (full_pdk_warnings : bool) (w : World) :
  path_exists out (join out pdk_root pdk_name) = false →
  _get_pdk_config out (VStr pdk_name) scl pdk_root full_pdk_warnings w =
    ({| heap := heap w;
        trace := trace w ++ [EvExists (join out pdk_root pdk_name);
                             EvGlob (join out pdk_root pdk_name ++ "*")] |},
     inl (InvalidConfig "PDK configuration"
            ((λ m, "A similarly-named PDK was found: " ++ basename out m) <$>
               glob out (join out pdk_root pdk_name ++ "*"))
            ["The PDK " ++ pdk_name ++ " was not found."])).
Proof. apply get_pdk_config_missing. Qed.

Lemma missing_pdk_is_an_invalid_config_witness :
  _get_pdk_config bare_outside (VStr "sky130A") None "/pdks" false empty_world =
    ({| heap := ∅; trace := [EvExists "/pdks/sky130A"; EvGlob "/pdks/sky130A*"] |},
     inl (InvalidConfig "PDK configuration" [] ["The PDK sky130A was not found."])).
Proof.
  apply (missing_pdk_is_an_invalid_config bare_outside "sky130A" None "/pdks" false
           empty_world).
  reflexivity.
Defined.

(** ** Reading a file *)

Lemma read_file_returns out path text w :
  file_text out path = Some text →
  read_file out path w =
    ({| heap := heap w; trace := trace w ++ [EvOpen path] |}, inr text).
Proof. intros H. unfold read_file, mbind, Py_bind, emit. simpl. by rewrite H. Qed.

(** ** Warnings of the technology files *)

Lemma emit_returns ev w w' u :
  emit ev w = (w', inr u) → heap w' = heap w ∧ trace w' = (trace w ++ [ev])%list.
Proof. unfold emit. by intros [= <- _]. Qed.

Lemma read_file_trace out path w w' text :
  read_file out path w = (w', inr text) →
  heap w' = heap w ∧ trace w' = (trace w ++ [EvOpen path])%list.
Proof.
  unfold read_file. intros H. apply bind_returns in H as ([] & w1 & He & H).
  apply emit_returns in He as [Hh Ht].
  destruct (file_text out path); [|done]. injection H as <- _. done.
Qed.

Lemma call_trace {A} (f : Ext A) w : trace (call f w).1 = trace w.
Proof. unfold call. by destruct (f (heap w)). Qed.

Lemma call_returns {A} (f : Ext A) w w' r :
  call f w = (w', r) → trace w' = trace w.
Proof. intros H. by rewrite <- (call_trace f w), H. Qed.

Lemma quiet_returns {A} (m : Py A) w w' r :
  quiet m → m w = (w', r) → trace w' = trace w.
Proof. intros Hq H. by rewrite <- (Hq w), H. Qed.

Lemma fspath_returns v w w' s : fspath v w = (w', inr s) → w' = w.
Proof. destruct v; unfold fspath, raise, mret, Py_ret; intros H; by simplify_eq. Qed.

(** When [_get_pdk_config] returns and [full_pdk_warnings] is off, as it
    is in every call that [load] makes, the log has grown by five
    entries: the test for the directory, and twice a file opened and a
    Tcl text evaluated.  The warnings of the technology files are not
    logged and not returned. *)
Theorem pdk_warnings_are_dropped (out : Outside) (pdk : Value) (scl : option string)
    (pdk_root : string) (w w' : World) (r : Config * string * Value) :
  _get_pdk_config out pdk scl pdk_root false w = (w', inr r) →
  ∃ pdk_text p1 t1 p2 t2,
    trace w' = (trace w ++ [EvExists (join out pdk_root pdk_text);
                            EvOpen p1; EvTcl t1; EvOpen p2; EvTcl t2])%list.
Proof.
  unfold _get_pdk_config. intros H.
  apply bind_returns in H as (pdk_text & w1 & Hf & H).
  apply fspath_returns in Hf as ->.
  apply bind_returns in H as ([] & w2 & He & H). apply emit_returns in He as [_ Ht2].
  destruct (path_exists out (join out pdk_root pdk_text)); simpl in H.
  2:{ apply bind_returns in H as (? & ? & _ & H). done. }
  apply bind_returns in H as (text & w3 & Hr & H). apply read_file_trace in Hr as [_ Ht3].
  apply bind_returns in H as ([] & w4 & He & H). apply emit_returns in He as [_ Ht4].
  apply bind_returns in H as (pdk_env & w5 & Hc & H). apply call_returns in Hc.
  apply bind_returns in H as (scl' & w6 & Hs & H).
  assert (w6 = w5) as ->.
  { destruct (pdk_env !! "STD_CELL_LIBRARY") as [[]|];
      unfold raise, mret, Py_ret in Hs; by simplify_eq. }
  apply bind_returns in H as (scl_text & w7 & Hf' & H).
  apply fspath_returns in Hf' as ->.
  apply bind_returns in H as (text' & w8 & Hr & H). apply read_file_trace in Hr as [_ Ht8].
  apply bind_returns in H as ([] & w9 & He & H). apply emit_returns in He as [_ Ht9].
  apply bind_returns in H as (scl_env & w10 & Hc' & H). apply call_returns in Hc'.
  apply bind_returns in H as ([[cfg pws] pes] & w11 & Hp & H).
  apply (quiet_returns _ _ _ _ (quiet_process_variable_list _ _ _)) in Hp.
  destruct (negb (bool_decide (pes = []))); [done|].
  rewrite andb_false_r in H. simpl in H.
  injection H as <- _.
  eexists pdk_text, _, _, _, _.
  rewrite Hp, Hc', Ht9, Ht8, Hc, Ht4, Ht3, Ht2. by rewrite <- !app_assoc.
Qed.

Lemma pdk_warnings_are_dropped_witness :
  ∃ w' r pdk_text p1 t1 p2 t2,
    _get_pdk_config demo_outside (VStr "demo") None "/pdks" false empty_world
      = (w', inr r) ∧
    trace w' = (trace empty_world ++
                [EvExists (join demo_outside "/pdks" pdk_text);
                 EvOpen p1; EvTcl t1; EvOpen p2; EvTcl t2])%list.
Proof.
  assert (∃ w' r, _get_pdk_config demo_outside (VStr "demo") None "/pdks" false
                    empty_world = (w', inr r)) as (w' & r & Hrun).
  { eexists _, _. vm_compute. reflexivity. }
  destruct (pdk_warnings_are_dropped demo_outside (VStr "demo") None "/pdks"
              empty_world w' r Hrun) as (pdk_text & p1 & t1 & p2 & t2 & Ht).
  exists w', r, pdk_text, p1, t1, p2, t2. split; [exact Hrun | exact Ht].
Defined.

(** ** The [meta] object *)

(** A [meta] object that [Meta] does not take is an error of the design
    configuration of its own: the load raises [InvalidConfig] with the
    message added to the errors, also when every variable compiled. *)
Theorem invalid_meta_is_a_design_error (out : Outside) (meta_raw : Value) (e : string)
    (config_in : Dict) (a : LoadArgs) (w w1 : World) (f : Dict) (ws es : list string) :
  process_variable_list config_in (pdk_variables out ++ flow_config_vars a)
    (Some (removed_variables out)) w = (w1, inr (f, ws, es)) →
  Meta_of_raw (heap w1) meta_raw = inl e →
  validate_design out (Some meta_raw) config_in a w =
    (w1, inl (InvalidConfig "design configuration file" ws
                (es ++ [("'meta' object is invalid: " ++ e)%string]))).
Proof.
  intros Hrun Hmeta. rewrite (validate_design_run _ _ _ _ _ _ _ _ _ Hrun).
  unfold attach_meta. rewrite Hmeta. apply deliver_raises.
  intros Hnil. by apply app_eq_nil in Hnil as [_ ?].
Qed.

Lemma invalid_meta_is_a_design_error_witness :
  validate_design bare_outside (Some (VInt 2)) ∅ bare_args empty_world =
    (empty_world,
     inl (InvalidConfig "design configuration file" []
            ([] ++ ["'meta' object is invalid: argument after ** must be a mapping"]))).
Proof.
  apply (invalid_meta_is_a_design_error bare_outside (VInt 2)
           "argument after ** must be a mapping" ∅ bare_args empty_world empty_world
           ∅ [] []); reflexivity.
Defined.

(** ** Override strings and the choice of the technology *)

Lemma loads_tcl_split out config a w :
  _loads_tcl out config a w =
  (_loads_tcl_until_overrides out config a ≫= λ c, _loads_tcl_from_overrides out c a) w.
Proof.
  unfold _loads_tcl, _loads_tcl_until_overrides, _loads_tcl_from_overrides.
  unfold mbind, Py_bind.
  destruct (warn _ w) as [w1 [e|[]]]; [done|].
  destruct (_resolve_pdk_root out (Some (pdk_root a)) w1) as [w2 [e|root]]; [done|].
  destruct (emit (EvTcl config) w2) as [w3 [e|[]]]; [done|].
  destruct (call _ w3) as [w4 [e|tcl_config]]; [done|].
  destruct (call _ w4) as [w5 [e|process_info]]; [done|].
  destruct (get_heap w5) as [w6 [e|h]]; [done|].
  destruct (decide (pdk_or h process_info (pdk a) = VNone)); [done|].
  destruct (_get_pdk_config _ _ _ _ _ w6) as [w7 [e|[[cfg p] scl']]]; [done|].
  destruct (emit (EvTcl config) w7) as [w8 [e|[]]]; [done|].
  destruct (call _ w8) as [w9 [e|design_config]]; done.
Qed.

(** In [_loads_tcl] the override strings are read after the technology
    has been chosen and loaded: whatever lines 445-489 raise (no
    technology named, technology not found, invalid technology files) is
    raised with every list of override strings, a [PDK=...] override
    included. *)
Theorem tcl_overrides_cannot_choose_the_pdk (out : Outside) (config : string)
    (a : LoadArgs) (w w' : World) (e : Exn) :
  _loads_tcl_until_overrides out config a w = (w', inl e) →
  ∀ overrides, _loads_tcl out config (with_overrides overrides a) w = (w', inl e).
Proof.
  intros H overrides. rewrite loads_tcl_split.
  change (_loads_tcl_until_overrides out config (with_overrides overrides a))
    with (_loads_tcl_until_overrides out config a).
  by erewrite bind_raises.
Qed.

Lemma tcl_overrides_cannot_choose_the_pdk_witness :
  ∃ w', _loads_tcl bare_outside "" (with_overrides ["PDK=sky130A"] bare_args) empty_world
        = (w', inl pdk_required).
Proof.
  assert (∃ w', _loads_tcl_until_overrides bare_outside "" bare_args empty_world
                = (w', inl pdk_required)) as (w' & Hrun).
  { eexists. vm_compute. reflexivity. }
  exists w'.
  exact (tcl_overrides_cannot_choose_the_pdk bare_outside "" bare_args empty_world w'
           pdk_required Hrun ["PDK=sky130A"]).
Defined.

Lemma split_once_is_Some sep s :
  sep ∈ PyStr.chars s → is_Some (PyStr.split_once sep s).
Proof.
  unfold PyStr.chars. induction s as [|c s IH]; simpl; intros Hin.
  - by apply elem_of_nil in Hin.
  - destruct (Ascii.eqb_spec c sep) as [->|Hne]; [by eexists|].
    apply elem_of_cons in Hin as [->|Hin]; [done|].
    destruct (IH Hin) as [[k v] ->]. by eexists.
Qed.

Lemma overrides_well_formed (overrides : list string) :
  Forall (λ s, "="%char ∈ PyStr.chars s) overrides →
  ∀ raw w, ∃ raw', for_each overrides apply_override raw w = (w, inr raw').
Proof.
  induction 1 as [|x xs Hx _ IH]; intros raw w; simpl.
  - by eexists.
  - unfold mbind, Py_bind. unfold apply_override at 1.
    destruct (split_once_is_Some _ _ Hx) as [[k v] ->]. simpl. apply IH.
Qed.

(** ** The configuration file is read before the technology is missed *)

Lemma overrides_run (overrides : list string) :
  Forall (λ s, "="%char ∈ PyStr.chars s) overrides →
  ∀ raw w, for_each overrides apply_override raw w = (w, inr (overridden overrides raw)).
Proof.
  induction 1 as [|x xs Hx _ IH]; intros raw w.
  - done.
  - destruct (split_once_is_Some _ _ Hx) as [[k v] Hsplit].
    change (for_each (x :: xs) apply_override raw w)
      with ((apply_override x raw ≫= for_each xs apply_override) w).
    erewrite bind_run; [|unfold apply_override; rewrite Hsplit; reflexivity].
    rewrite IH. unfold overridden. simpl. by rewrite Hsplit.
Qed.

(** For a [.json] path the file is opened and parsed before anything
    asks for the technology.  Let the file be read and parsed, let the
    technology root be found (Volare is installed or [pdk_root] is
    given), let every override string have its sign, and let the
    resolver return process information: when neither that nor the
    caller names a technology, [load] raises the [ValueError] of line
    386 after exactly one file was opened, the configuration file
    itself. *)
Theorem config_is_read_before_the_pdk_is_missed (out : Outside) (path text : string)
    (raw process_info : Dict) (h1 h2 : Heap)
    (flow_config_vars : list ConfigVariable)
    (config_override_strings : option (list string))
    (pdk pdk_root scl : option string) (w : World) :
  PyStr.endswith (abspath out path) ".json" = true →
  file_text out (abspath out path) = Some text →
  is_Some (volare_home out) ∨ is_Some pdk_root →
  json_loads out text (heap w) = (h1, inr raw) →
  Forall (λ s, "="%char ∈ PyStr.chars s) (default [] config_override_strings) →
  resolve_process_info out
    (overridden (default [] config_override_strings)
       (if get_not_None raw "meta" is Some _ then delete "meta" raw else raw))
    (dirname out (abspath out path)) h1 = (h2, inr process_info) →
  pdk_or h2 process_info pdk = VNone →
  load out (InPath path) flow_config_vars config_override_strings pdk pdk_root scl None w =
    ({| heap := h2; trace := trace w ++ [EvOpen (abspath out path)] |}, inl pdk_required).
Proof.
  intros Hext Hfile Hroot Hjson Hover Hres Hpdk. unfold load. rewrite Hext.
  erewrite bind_run by (by apply read_file_returns).
  unfold run_loader.
  assert (∃ root, ∀ w0, _resolve_pdk_root out pdk_root w0 = (w0, inr root)) as [root Hr].
  { unfold _resolve_pdk_root. destruct (volare_home out) as [g|]; [by eexists|].
    destruct Hroot as [[? [=]]|[r ->]]. by eexists. }
  erewrite bind_run by apply Hr.
  unfold _loads, _load_dict. simpl.
  unfold mbind at 1, Py_bind at 1.
  unfold mbind at 1, Py_bind at 1, call at 1. simpl. rewrite Hjson.
  unfold mbind at 1, Py_bind at 1. rewrite overrides_run by done.
  unfold mbind, Py_bind, call, get_heap. simpl. rewrite Hres. simpl. rewrite Hpdk.
  by rewrite decide_True.
Qed.

Lemma config_is_read_before_the_pdk_is_missed_witness :
  load demo_outside (InPath "/d/config.json") [] (Some ["A=1"]) None (Some "/pdks") None None
    empty_world =
    ({| heap := ∅; trace := [] ++ [EvOpen "/d/config.json"] |}, inl pdk_required).
Proof.
  apply (config_is_read_before_the_pdk_is_missed demo_outside "/d/config.json" ""
           ∅ (<["A" := VStr "1"]> ∅) ∅ ∅ [] (Some ["A=1"]) None (Some "/pdks") None
           empty_world); try reflexivity.
  - right. by eexists.
  - repeat constructor.
Defined.

(** ** An override string chooses the technology *)

(** In [_load_dict] the override strings are read first: a last
    override [PDK=name] with a non-empty name chooses the technology,
    whatever the configuration and the [pdk] argument say, given a
    resolver that reports the ["PDK"] entry of the object it is handed.
    Here the chosen technology does not exist, and the error names it. *)
Theorem dict_override_chooses_the_pdk (out : Outside) (raw : Dict) (a : LoadArgs)
    (overrides : list string) (pdk_name : string) (w : World) :
  (∀ d dd h, ∃ h' process_info,
      resolve_process_info out d dd h = (h', inr process_info) ∧
      process_info !! SpecialKeys.pdk = d !! SpecialKeys.pdk) →
  config_override_strings a = (overrides ++ [("PDK=" ++ pdk_name)%string])%list →
  Forall (λ s, "="%char ∈ PyStr.chars s) overrides →
  pdk_name ≠ "" →
  path_exists out (join out (pdk_root a) pdk_name) = false →
  ∃ w' ws,
    _load_dict out raw a w =
      (w', inl (InvalidConfig "PDK configuration" ws
                  ["The PDK " ++ pdk_name ++ " was not found."])).
Proof.
  intros Hres Hov Hwf Hne Hno. unfold _load_dict. rewrite Hov.
  set (raw0 := if get_not_None raw "meta" is Some _ then delete "meta" raw else raw).
  destruct (overrides_well_formed _ Hwf raw0 w) as [raw1 Hrun].
  assert (for_each (overrides ++ [("PDK=" ++ pdk_name)%string])%list apply_override raw0 w =
          (w, inr (<["PDK" := VStr pdk_name]> raw1))) as Hall.
  { rewrite for_each_app. erewrite bind_run by exact Hrun. simpl.
    unfold mbind, Py_bind.
    change ("PDK=" ++ pdk_name) with ("PDK" ++ String "=" pdk_name).
    unfold apply_override. rewrite split_once_app; [done|].
    vm_compute. intros Hin.
    repeat (apply elem_of_cons in Hin as [Hin|Hin]; [discriminate Hin|]).
    by apply elem_of_nil in Hin. }
  erewrite bind_run by exact Hall.
  destruct (Hres (<["PDK" := VStr pdk_name]> raw1) (design_dir a) (heap w))
    as (h' & process_info & Hcall & Hpdk).
  unfold mbind at 1, Py_bind at 1, call. rewrite Hcall.
  unfold mbind at 1, Py_bind at 1, get_heap. simpl.
  assert (pdk_or h' process_info (pdk a) = VStr pdk_name) as ->.
  { unfold pdk_or. rewrite Hpdk. unfold SpecialKeys.pdk. rewrite lookup_insert_eq.
    simpl. destruct (String.eqb_spec pdk_name ""); [done|]. done. }
  rewrite decide_False by done.
  erewrite bind_raises; [by eexists _, _|].
  by rewrite get_pdk_config_missing.
Qed.

Lemma dict_override_chooses_the_pdk_witness :
  ∃ w' ws,
    _load_dict bare_outside {["PDK" := VStr "gf180mcuC"]}
      (with_overrides ["PDK=sky130A"] bare_args) empty_world =
      (w', inl (InvalidConfig "PDK configuration" ws ["The PDK sky130A was not found."])).
Proof.
  apply (dict_override_chooses_the_pdk bare_outside {["PDK" := VStr "gf180mcuC"]}
           (with_overrides ["PDK=sky130A"] bare_args) [] "sky130A" empty_world).
  - intros d dd h. exists h, d. split; reflexivity.
  - reflexivity.
  - constructor.
  - discriminate.
  - reflexivity.
Defined.

(** ** The message of [InvalidConfig] (lines 72-88) *)

Lemma line_breaks_app a b : line_breaks (a ++ b) = (line_breaks a + line_breaks b)%nat.
Proof. unfold line_breaks. by rewrite chars_app, filter_app, length_app. Qed.

Lemma string_app_assoc (a b c : string) : (a ++ b) ++ c = a ++ b ++ c.
Proof. apply chars_inj. rewrite !chars_app. by rewrite app_assoc. Qed.

Lemma string_app_empty (a : string) : a ++ "" = a.
Proof. apply chars_inj. rewrite chars_app. apply app_nil_r. Qed.

Lemma message_fold (errors : list string) : ∀ start,
  fold_left (λ message error, message ++ String tab "* " ++ error) errors start =
  start ++ foldr (λ error rest, String tab "* " ++ error ++ rest) "" errors.
Proof.
  induction errors as [|e es IH]; intros start; simpl.
  - by rewrite string_app_empty.
  - rewrite IH. by rewrite !string_app_assoc.
Qed.

Lemma line_breaks_fold (errors : list string) : ∀ start,
  line_breaks (fold_left (λ message error, message ++ String tab "* " ++ error)
                 errors start) =
  (line_breaks start + sum_list (line_breaks <$> errors))%nat.
Proof.
  induction errors as [|e es IH]; intros start; [simpl; lia|].
  rewrite fmap_cons.
  change (sum_list (line_breaks e :: (line_breaks <$> es)))
    with (line_breaks e + sum_list (line_breaks <$> es))%nat.
  cbn [fold_left]. rewrite IH, !line_breaks_app.
  change (line_breaks (String tab "* ")) with 0%nat. lia.
Qed.

(** The default message puts one line break after its heading and none
    between the errors: each error follows the one before it on the same
    line, marked by a tabulator and an asterisk. *)
Theorem errors_share_one_line (errors : list string) :
  InvalidConfig_message None errors =
    "The following errors were encountered: " ++ String newline "" ++
    foldr (λ error rest, String tab "* " ++ error ++ rest) "" errors ∧
  line_breaks (InvalidConfig_message None errors) =
    (1 + sum_list (line_breaks <$> errors))%nat.
Proof.
  unfold InvalidConfig_message. split.
  - by rewrite message_fold, string_app_assoc.
  - by rewrite line_breaks_fold.
Qed.

(** ** The verdict, and what is logged (lines 419-431, 499-511) *)

(** The warnings of the design configuration are logged only when there
    is no error: then one line announces them, if there are any, and
    they follow in their order.  With an error nothing is logged and the
    warnings travel in the exception. *)
Theorem warnings_are_logged_only_without_errors (config_in : Config)
    (design_warnings design_errors : list string) (w : World) :
  deliver config_in design_warnings design_errors w =
    if bool_decide (design_errors = []) then
      ({| heap := heap w;
          trace := trace w ++
            (if bool_decide (design_warnings = []) then []
             else [EvInfo "Loading the design configuration file has generated the following warnings:"])
            ++ (EvWarn <$> design_warnings) |}, inr config_in)
    else
      (w, inl (InvalidConfig "design configuration file" design_warnings design_errors)).
Proof.
  unfold deliver. destruct (bool_decide (design_errors = [])); simpl; [|done].
  destruct (bool_decide (design_warnings = [])); simpl.
  - unfold mbind, Py_bind, mret, Py_ret. by rewrite warn_all_run.
  - unfold mbind, Py_bind, info, emit. rewrite warn_all_run. simpl.
    by rewrite <- app_assoc.
Qed.

(** ** A flat list given as a text (lines 662-669) *)

Lemma split_nonempty sep s : PyStr.split sep s ≠ [].
Proof.
  destruct s as [|c s]; simpl; [done|].
  destruct (Ascii.eqb c sep); [done|]. by destruct (PyStr.split sep s).
Qed.

Lemma split_length s :
  List.length (PyStr.split " " s) = S (spaces s).
Proof.
  unfold spaces, PyStr.chars. induction s as [|c s IH]; simpl; [done|].
  destruct (Ascii.eqb_spec c " ") as [->|Hne].
  - rewrite filter_cons_True by done. simpl. by rewrite IH.
  - rewrite filter_cons_False by done. rewrite <- IH.
    pose proof (split_nonempty " " s). by destruct (PyStr.split " " s).
Qed.

(** A text is cut at every single space, empty fields included, so it is
    refused exactly when the number of its spaces plus one is not a
    multiple of four: two spaces in a row count as a field. *)
Theorem text_list_is_counted_by_its_spaces (h : Heap) (s : string) :
  spefs_rejected h (VStr s) ↔ (Z.of_nat (spaces s) + 1) mod 4 ≠ 0.
Proof.
  unfold spefs_rejected. simpl. rewrite length_fmap, split_length.
  by rewrite Nat2Z.inj_succ, <- Z.add_1_r.
Qed.

(** ** The flat list, translated (lines 673-692) *)

Lemma alloc_spec o w :
  ∃ l, alloc o w = ({| heap := <[l := o]> (heap w); trace := trace w |}, inr l) ∧
       heap w !! l = None.
Proof. exists (fresh (dom (heap w))). split; [apply alloc_run | apply fresh_unused]. Qed.

Lemma dict_get_set_hash d k v k' :
  hash_key k = hash_key k' → dict_get (dict_set d k v) k' = Some v.
Proof.
  intros Heq. induction d as [|[k0 v0] d IH]; simpl.
  - by rewrite decide_True.
  - destruct (decide (hash_key k0 = hash_key k)) as [E|E]; simpl.
    + rewrite decide_True; [done | congruence].
    + rewrite decide_False; [done | congruence].
Qed.

(** Lines 686-691 build six new objects and touch no other. *)
Lemma new_macro_dict_run module min nom max w :
  ∃ h' r g s a b c,
    new_macro_dict module min nom max w =
      ({| heap := h'; trace := trace w |}, inr (VRef r)) ∧
    h' !! r = Some (ODict [(VStr "module", module); (VStr "gds", VRef g);
                           (VStr "spef", VRef s)]) ∧
    h' !! g = Some (OList [VStr "/dev/null"]) ∧
    h' !! s = Some (ODict [(VStr "min_*", VRef a); (VStr "nom_*", VRef b);
                           (VStr "max_*", VRef c)]) ∧
    h' !! a = Some (OList [min]) ∧ h' !! b = Some (OList [nom]) ∧
    h' !! c = Some (OList [max]) ∧
    heap w !! r = None ∧ heap w !! g = None ∧ heap w !! s = None ∧
    heap w !! a = None ∧ heap w !! b = None ∧ heap w !! c = None ∧
    (∀ l, is_Some (heap w !! l) → h' !! l = heap w !! l).
Proof.
  unfold new_macro_dict. destruct w as [h tr]. simpl.
  destruct (alloc_spec (OList [VStr "/dev/null"]) {| heap := h; trace := tr |})
    as (g & Hg & Fg). simpl in *.
  erewrite bind_run by exact Hg.
  destruct (alloc_spec (ODict [(VStr "module", module); (VStr "gds", VRef g)])
              {| heap := <[g := OList [VStr "/dev/null"]]> h; trace := tr |})
    as (r & Hr & Fr). simpl in *.
  erewrite bind_run by exact Hr.
  destruct (alloc_spec (OList [min])
              {| heap := <[r := ODict [(VStr "module", module); (VStr "gds", VRef g)]]>
                           (<[g := OList [VStr "/dev/null"]]> h); trace := tr |})
    as (a & Ha & Fa). simpl in *.
  erewrite bind_run by exact Ha.
  destruct (alloc_spec (OList [nom])
              {| heap := <[a := OList [min]]>
                           (<[r := ODict [(VStr "module", module); (VStr "gds", VRef g)]]>
                              (<[g := OList [VStr "/dev/null"]]> h)); trace := tr |})
    as (b & Hb & Fb). simpl in *.
  erewrite bind_run by exact Hb.
  destruct (alloc_spec (OList [max])
              {| heap := <[b := OList [nom]]> (<[a := OList [min]]>
                           (<[r := ODict [(VStr "module", module); (VStr "gds", VRef g)]]>
                              (<[g := OList [VStr "/dev/null"]]> h))); trace := tr |})
    as (c & Hc & Fc). simpl in *.
  erewrite bind_run by exact Hc.
  destruct (alloc_spec (ODict [(VStr "min_*", VRef a); (VStr "nom_*", VRef b);
                               (VStr "max_*", VRef c)])
              {| heap := <[c := OList [max]]> (<[b := OList [nom]]> (<[a := OList [min]]>
                           (<[r := ODict [(VStr "module", module); (VStr "gds", VRef g)]]>
                              (<[g := OList [VStr "/dev/null"]]> h)))); trace := tr |})
    as (s & Hs & Fs). simpl in *.
  erewrite bind_run by exact Hs.
  clear Hg Hr Ha Hb Hc Hs.
  repeat (let N := fresh "N" in apply lookup_insert_None in Fr as [Fr N]).
  repeat (let N := fresh "N" in apply lookup_insert_None in Fa as [Fa N]).
  repeat (let N := fresh "N" in apply lookup_insert_None in Fb as [Fb N]).
  repeat (let N := fresh "N" in apply lookup_insert_None in Fc as [Fc N]).
  repeat (let N := fresh "N" in apply lookup_insert_None in Fs as [Fs N]).
  unfold setitem, mbind, Py_bind, get_heap, put_heap. simpl.
  rewrite (lookup_insert_ne _ s r) by congruence.
  rewrite (lookup_insert_ne _ c r) by congruence.
  rewrite (lookup_insert_ne _ b r) by congruence.
  rewrite (lookup_insert_ne _ a r) by congruence.
  rewrite lookup_insert_eq. simpl.
  eexists _, r, g, s, a, b, c. split; [reflexivity|].
  split_and!; try done.
  - apply lookup_insert_eq.
  - rewrite !lookup_insert_ne by congruence. apply lookup_insert_eq.
  - rewrite lookup_insert_ne by congruence. apply lookup_insert_eq.
  - rewrite !lookup_insert_ne by congruence. apply lookup_insert_eq.
  - rewrite !lookup_insert_ne by congruence. apply lookup_insert_eq.
  - rewrite !lookup_insert_ne by congruence. apply lookup_insert_eq.
  - intros l [o Hl].
    rewrite !lookup_insert_ne; [done| | | | | | |]; intros ->; congruence.
Qed.

Lemma record_at_frame l0 h h' r q :
  record_at l0 h r q →
  (∀ l, is_Some (h !! l) → l ≠ l0 → h' !! l = h !! l) →
  record_at l0 h' r q.
Proof.
  destruct q as [[[module min] nom] max]. unfold record_at.
  intros (g & s & a & b & c & Hr & Hg & Hs & Ha & Hb & Hc & Nr & Ng & Ns & Na & Nb & Nc) Hf.
  exists g, s, a, b, c.
  split_and!; try done; rewrite Hf; try done; by eexists.
Qed.

(** One turn of the loop: a new record, bound to its module in the table. *)
Lemma translate_quadruple_run q st w l0 d :
  mutable st !! "MACROS" = Some (VRef l0) →
  heap w !! l0 = Some (ODict d) →
  is_scalar (module_of q) →
  ∃ h' r,
    translate_quadruple q st w = ({| heap := h'; trace := trace w |}, inr st) ∧
    h' !! l0 = Some (ODict (dict_set d (module_of q) (VRef r))) ∧
    record_at l0 h' r q ∧
    (∀ l, is_Some (heap w !! l) → l ≠ l0 → h' !! l = heap w !! l).
Proof.
  destruct q as [[[module min] nom] max]. intros Hm Hl0 Hsc. simpl in Hsc.
  destruct (new_macro_dict_run module min nom max w)
    as (h1 & r & g & s & a & b & c & Hrun & Hr & Hg & Hs & Ha & Hb & Hc
        & Fr & Fg & Fs & Fa & Fb & Fc & Hframe).
  assert (h1 !! l0 = Some (ODict d)) as Hl1.
  { rewrite Hframe; [done | by eexists]. }
  assert (r ≠ l0 ∧ g ≠ l0 ∧ s ≠ l0 ∧ a ≠ l0 ∧ b ≠ l0 ∧ c ≠ l0) as (Nr & Ng & Ns & Na & Nb & Nc).
  { split_and!; intros ->; congruence. }
  exists (<[l0 := ODict (dict_set d module (VRef r))]> h1), r.
  split_and!.
  - unfold translate_quadruple. erewrite bind_run by exact Hrun. rewrite Hm.
    unfold setitem, mbind, Py_bind, get_heap, put_heap, mret, Py_ret. simpl.
    rewrite Hl1. by rewrite (hashable_scalar _ _ Hsc).
  - apply lookup_insert_eq.
  - unfold record_at. exists g, s, a, b, c.
    rewrite !lookup_insert_ne by done. by split_and!.
  - intros l Hl Hne. rewrite lookup_insert_ne by done. by apply Hframe.
Qed.

Lemma last_with_cons k q qs :
  last_with k (q :: qs) =
  match last_with k qs with
  | Some q' => Some q'
  | None => if decide (hash_key (module_of q) = hash_key k) then Some q else None
  end.
Proof.
  unfold last_with.
  destruct (decide (hash_key (module_of q) = hash_key k)) as [E|E].
  - rewrite filter_cons_True by done. rewrite last_cons.
    by destruct (last _).
  - rewrite filter_cons_False by done. by destruct (last _).
Qed.

(** The loop: the table ends with one record for each module named,
    built from the quadruple that names it last, and is otherwise as it
    was; no other object that existed before has changed. *)
Lemma translate_all_run qs : ∀ st w l0 d,
  mutable st !! "MACROS" = Some (VRef l0) →
  heap w !! l0 = Some (ODict d) →
  Forall is_scalar (module_of <$> qs) →
  ∃ h' d',
    for_each qs translate_quadruple st w = ({| heap := h'; trace := trace w |}, inr st) ∧
    h' !! l0 = Some (ODict d') ∧
    (∀ k, match last_with k qs with
          | Some q => ∃ r, dict_get d' k = Some (VRef r) ∧ record_at l0 h' r q
          | None => dict_get d' k = dict_get d k
          end) ∧
    (∀ l, is_Some (heap w !! l) → l ≠ l0 → h' !! l = heap w !! l).
Proof.
  induction qs as [|q qs IH]; intros st w l0 d Hm Hl0 Hsc.
  - exists (heap w), d. destruct w. by split_and!.
  - rewrite fmap_cons in Hsc. apply Forall_cons in Hsc as [Hq Hsc].
    destruct (translate_quadruple_run q st w l0 d Hm Hl0 Hq)
      as (h1 & r & Hrun & Hl1 & Hrec & Hframe).
    destruct (IH st {| heap := h1; trace := trace w |} l0 _ Hm Hl1 Hsc)
      as (h' & d' & Hrun' & Hl' & Htable & Hframe').
    simpl in *.
    assert (∀ l, is_Some (heap w !! l) → l ≠ l0 → is_Some (h1 !! l)) as Hgrow.
    { intros l Hl Hne. by rewrite Hframe. }
    exists h', d'. split_and!.
    + erewrite bind_run by exact Hrun. exact Hrun'.
    + done.
    + intros k. rewrite last_with_cons. specialize (Htable k).
      destruct (last_with k qs) as [q'|]; [done|].
      destruct (decide (hash_key (module_of q) = hash_key k)) as [E|E].
      * exists r. rewrite Htable. split; [by apply dict_get_set_hash|].
        by eapply record_at_frame.
      * rewrite Htable. by apply dict_get_set_ne.
    + intros l Hl Hne. rewrite Hframe' by auto. by apply Hframe.
Qed.

Lemma translate_extra_spefs_run v st w items l0 d :
  as_spef_list (heap w) v = Some items →
  Z.of_nat (List.length items) mod 4 = 0 →
  mutable st !! "MACROS" = Some (VRef l0) →
  heap w !! l0 = Some (ODict d) →
  Forall is_scalar (module_of <$> quadruples items) →
  ∃ h' d',
    translate_extra_spefs v st w =
      ({| heap := h'; trace := trace w |},
       inr (append_warnings [spef_deprecated] (set_translated_macros true st))) ∧
    h' !! l0 = Some (ODict d') ∧
    (∀ k, match last_with k (quadruples items) with
          | Some q => ∃ r, dict_get d' k = Some (VRef r) ∧ record_at l0 h' r q
          | None => dict_get d' k = dict_get d k
          end) ∧
    (∀ l, is_Some (heap w !! l) → l ≠ l0 → h' !! l = heap w !! l).
Proof.
  intros Hitems Hmod Hm Hl0 Hsc.
  destruct (translate_all_run (quadruples items)
              (append_warnings [spef_deprecated] (set_translated_macros true st))
              w l0 d Hm Hl0 Hsc) as (h' & d' & Hrun & Hrest).
  exists h', d'. split; [|done].
  unfold translate_extra_spefs, mbind, Py_bind, get_heap. rewrite Hitems.
  apply Z.eqb_eq in Hmod. rewrite Hmod. exact Hrun.
Qed.

(** A flat list whose length is a multiple of four, with no table of
    macros yet: one deprecation warning, no error, and a new table that
    binds each module named to a record built from the quadruple that
    names it last (module, placeholder list ["/dev/null"], and the three
    one-element lists of annotation files under [min_*], [nom_*],
    [max_*]) and binds nothing else.  A module named twice gets one
    record.  No object that existed before is changed and nothing is
    logged. *)
Theorem flat_list_becomes_macro_records (st : Locals) (w : World) (v : Value)
    (items : list Value) :
  get_not_None (mutable st) "EXTRA_SPEFS" = Some v →
  mutable st !! "MACROS" = None →
  as_spef_list (heap w) v = Some items →
  Z.of_nat (List.length items) mod 4 = 0 →
  Forall is_scalar (module_of <$> quadruples items) →
  ∃ h' d,
    migrate_extra_spefs st w =
      ({| heap := h'; trace := trace w |},
       inr (append_warnings [spef_deprecated]
              (set_translated_macros true
                 (spefs_taken (VRef (fresh (dom (heap w)))) st)))) ∧
    h' !! fresh (dom (heap w)) = Some (ODict d) ∧
    (∀ k, match last_with k (quadruples items) with
          | Some q => ∃ r, dict_get d k = Some (VRef r) ∧
                           record_at (fresh (dom (heap w))) h' r q
          | None => dict_get d k = None
          end) ∧
    (∀ l, is_Some (heap w !! l) → h' !! l = heap w !! l).
Proof.
  intros Hget Hm Hitems Hmod Hsc.
  set (l0 := fresh (dom (heap w))).
  assert (heap w !! l0 = None) as Hfresh by apply fresh_unused.
  set (w0 := {| heap := <[l0 := ODict []]> (heap w); trace := trace w |}).
  assert (take_extra_spefs st w = (w0, inr (spefs_taken (VRef l0) st))) as Htake.
  { unfold take_extra_spefs, mbind, Py_bind, get_heap. by rewrite Hm. }
  destruct (translate_extra_spefs_run v (spefs_taken (VRef l0) st) w0 items l0 [])
    as (h' & d & Hrun & Hl0 & Htable & Hframe); try done.
  - simpl. by rewrite as_spef_list_alloc.
  - simpl. rewrite lookup_delete_ne by done. apply lookup_insert_eq.
  - apply lookup_insert_eq.
  - exists h', d. split_and!; try done.
    + unfold migrate_extra_spefs. rewrite Hget.
      erewrite bind_run by exact Htake. exact Hrun.
    + intros l Hl. assert (l ≠ l0) as Hne by (intros ->; destruct Hl; congruence).
      rewrite Hframe; simpl; rewrite ?lookup_insert_ne; done.
Qed.

Lemma flat_list_becomes_macro_records_witness :
  ∃ h' d r,
    (migrate_extra_spefs (initial {["EXTRA_SPEFS" := VStr "m a b c"]}) empty_world).1 =
      {| heap := h'; trace := [] |} ∧
    h' !! fresh (dom (∅ : Heap)) = Some (ODict d) ∧
    dict_get d (VStr "m") = Some (VRef r) ∧
    record_at (fresh (dom (∅ : Heap))) h' r (VStr "m", VStr "a", VStr "b", VStr "c").
Proof.
  destruct (flat_list_becomes_macro_records
              (initial {["EXTRA_SPEFS" := VStr "m a b c"]}) empty_world (VStr "m a b c")
              [VStr "m"; VStr "a"; VStr "b"; VStr "c"])
    as (h' & d & Hrun & Hl0 & Htable & _).
  - reflexivity.
  - reflexivity.
  - reflexivity.
  - reflexivity.
  - repeat constructor.
  - specialize (Htable (VStr "m")).
    change (last_with (VStr "m") (quadruples [VStr "m"; VStr "a"; VStr "b"; VStr "c"]))
      with (Some (VStr "m", VStr "a", VStr "b", VStr "c")) in Htable.
    destruct Htable as (r & Hget & Hrec).
    exists h', d, r. split_and!; [by rewrite Hrun | exact Hl0 | exact Hget | exact Hrec].
Defined.

(** The same list when the receiver has a table of macros already: the
    records are written into that very table, which the working copy
    shares with the receiver.  The names that the list does not
    mention keep their entries, the names it mentions are rebound, and
    nothing else that existed before is changed. *)
Theorem flat_list_is_written_into_the_given_table (st : Locals) (w : World)
    (v : Value) (items : list Value) (l0 : loc) (d0 : list (Value * Value)) :
  get_not_None (mutable st) "EXTRA_SPEFS" = Some v →
  mutable st !! "MACROS" = Some (VRef l0) →
  heap w !! l0 = Some (ODict d0) → d0 ≠ [] →
  as_spef_list (heap w) v = Some items →
  Z.of_nat (List.length items) mod 4 = 0 →
  Forall is_scalar (module_of <$> quadruples items) →
  ∃ h' d,
    migrate_extra_spefs st w =
      ({| heap := h'; trace := trace w |},
       inr (append_warnings [spef_deprecated]
              (set_translated_macros true (spefs_taken (VRef l0) st)))) ∧
    h' !! l0 = Some (ODict d) ∧
    (∀ k, match last_with k (quadruples items) with
          | Some q => ∃ r, dict_get d k = Some (VRef r) ∧ record_at l0 h' r q
          | None => dict_get d k = dict_get d0 k
          end) ∧
    (∀ l, is_Some (heap w !! l) → l ≠ l0 → h' !! l = heap w !! l).
Proof.
  intros Hget Hm Hl0 Hne Hitems Hmod Hsc.
  assert (take_extra_spefs st w = (w, inr (spefs_taken (VRef l0) st))) as Htake.
  { unfold take_extra_spefs, mbind, Py_bind, get_heap. rewrite Hm. simpl. rewrite Hl0.
    by rewrite bool_decide_eq_false_2. }
  destruct (translate_extra_spefs_run v (spefs_taken (VRef l0) st) w items l0 d0)
    as (h' & d & Hrun & Hrest); try done.
  - simpl. rewrite lookup_delete_ne by done. apply lookup_insert_eq.
  - exists h', d. split; [|done].
    unfold migrate_extra_spefs. rewrite Hget.
    erewrite bind_run by exact Htake. exact Hrun.
Qed.

Lemma flat_list_is_written_into_the_given_table_witness :
  ∃ h' d r,
    (migrate_extra_spefs (initial one_macro_config) one_macro_world).1 =
      {| heap := h'; trace := [] |} ∧
    h' !! 1%positive = Some (ODict d) ∧
    dict_get d (VStr "old") = Some VNone ∧
    dict_get d (VStr "m") = Some (VRef r).
Proof.
  destruct (flat_list_is_written_into_the_given_table
              (initial one_macro_config) one_macro_world (VStr "m a b c")
              [VStr "m"; VStr "a"; VStr "b"; VStr "c"] 1%positive [(VStr "old", VNone)])
    as (h' & d & Hrun & Hl0 & Htable & _).
  - reflexivity.
  - reflexivity.
  - reflexivity.
  - discriminate.
  - reflexivity.
  - reflexivity.
  - repeat constructor.
  - pose proof (Htable (VStr "old")) as Hold. pose proof (Htable (VStr "m")) as Hnew.
    change (last_with (VStr "old") (quadruples [VStr "m"; VStr "a"; VStr "b"; VStr "c"]))
      with (@None (Value * Value * Value * Value)) in Hold.
    change (last_with (VStr "m") (quadruples [VStr "m"; VStr "a"; VStr "b"; VStr "c"]))
      with (Some (VStr "m", VStr "a", VStr "b", VStr "c")) in Hnew.
    destruct Hnew as (r & Hget & _).
    exists h', d, r. split_and!; [by rewrite Hrun | exact Hl0 | exact Hold | exact Hget].
Defined.

(** ** Keys that a variable consumed *)

Lemma compile_variable_consumes variable st w w1 st1 key value :
  compile_variable variable st w = (w1, inr st1) →
  attempt variable st w = CompileOk (Some key) value →
  mutable st1 !! key = None.
Proof.
  rewrite compile_variable_run. unfold attempt.
  destruct (compile variable (heap w) (mutable st) (final st)) as [[h' ws] r].
  simpl. intros H ->. destruct (decide _); [|done].
  injection H as _ <-. simpl. apply lookup_delete_eq.
Qed.

Lemma compile_variables_consume variables : ∀ st w w' st' i key value,
  compile_variables variables st w = (w', inr st') →
  outcomes variables st w !! i = Some (CompileOk (Some key) value) →
  mutable st' !! key = None.
Proof.
  induction variables as [|v0 vs IH]; intros st w w' st' i key value Hrun Hi.
  { simpl in Hi. by destruct i. }
  unfold compile_variables in Hrun. simpl in Hrun.
  apply bind_returns in Hrun as (st1 & w1 & H1 & H2).
  fold (compile_variables vs st1 w1) in H2.
  simpl in Hi. rewrite H1 in Hi.
  destruct i as [|j]; simpl in Hi.
  - injection Hi as Hi.
    pose proof (compile_variable_consumes _ _ _ _ _ _ _ H1 Hi) as Hgone.
    destruct (compile_variables_errors _ _ _ _ _ H2) as (_ & _ & _ & Hdom & _).
    apply not_elem_of_dom. apply not_elem_of_dom in Hgone. set_solver.
  - by eapply IH.
Qed.

(** A raw key that some variable consumed is gone from the working set
    when the loop ends, however many variables follow, so the last pass
    never reports it as unknown. *)
Theorem consumed_keys_are_not_reported (variables : list ConfigVariable)
    (st st' : Locals) (w w' : World) (i : nat) (key : string) (value : Value) :
  compile_variables variables st w = (w', inr st') →
  outcomes variables st w !! i = Some (CompileOk (Some key) value) →
  mutable st' !! key = None ∧
  ∀ removed, unknown_warning key ∉ leftover_warnings removed (mutable st').
Proof.
  intros Hrun Hi.
  pose proof (compile_variables_consume _ _ _ _ _ _ _ _ Hrun Hi) as Hgone.
  split; [done|]. intros removed Hin.
  apply list_elem_of_In in Hin. apply (count_occ_In string_dec) in Hin.
  fold (times (unknown_warning key) (leftover_warnings removed (mutable st'))) in Hin.
  rewrite times_leftover_warnings in Hin.
  rewrite decide_False in Hin; [lia|]. rewrite Hgone. by intros [? ?].
Qed.

Lemma consumed_keys_are_not_reported_witness :
  ∃ w' st',
    compile_variables [renaming_variable "CLOCK_PERIOD" "CLK"] (initial {["CLK" := VInt 10]})
      empty_world = (w', inr st') ∧
    mutable st' !! "CLK" = None.
Proof.
  assert (∃ w' st',
            compile_variables [renaming_variable "CLOCK_PERIOD" "CLK"]
              (initial {["CLK" := VInt 10]}) empty_world = (w', inr st'))
    as (w' & st' & Hrun).
  { eexists _, _. vm_compute. reflexivity. }
  exists w', st'. split; [exact Hrun|].
  apply (consumed_keys_are_not_reported _ _ _ _ _ 0%nat "CLK" (VInt 10) Hrun).
  reflexivity.
Defined.

(** ** The order of the warnings *)






(** ** The technology root (lines 513-524 and 325) *)

(** Without Volare and without a [pdk_root], [load] raises the
    [ValueError] of line 521 before any loader runs: for a dictionary at
    once, for a readable [.json] or [.tcl] file right after the file was
    read.  Nothing is parsed or evaluated and no object is built. *)
Theorem pdk_root_is_needed_without_volare (out : Outside) (config_in : ConfigIn)
    (flow_config_vars : list ConfigVariable) (config_override_strings : option (list string))
    (pdk scl design_dir : option string) (w : World) :
  volare_home out = None →
  match config_in with
  | InDict _ => is_Some design_dir
  | InPath path =>
      design_dir = None ∧
      PyStr.endswith (abspath out path) ".json" || PyStr.endswith (abspath out path) ".tcl"
        = true ∧
      is_Some (file_text out (abspath out path))
  end →
  load out config_in flow_config_vars config_override_strings pdk None scl design_dir w =
    ({| heap := heap w;
        trace := trace w ++ match config_in with
                            | InDict _ => []
                            | InPath path => [EvOpen (abspath out path)]
                            end |},
     inl (ValueError "The pdk_root argument is required as Volare is not installed.")).
Proof.
  intros Hvol Hin. destruct config_in as [raw|path].
  - destruct Hin as [dd ->]. unfold load, run_loader.
    erewrite bind_raises; [done|]. unfold _resolve_pdk_root. rewrite Hvol.
    rewrite app_nil_r. by destruct w.
  - destruct Hin as (-> & Hext & [text Hfile]). unfold load.
    pose proof (read_file_returns out _ _ w Hfile) as Hread.
    destruct (PyStr.endswith (abspath out path) ".json").
    + erewrite bind_run by exact Hread. unfold run_loader.
      erewrite bind_raises; [done|]. unfold _resolve_pdk_root. by rewrite Hvol.
    + simpl in Hext. rewrite Hext.
      erewrite bind_run by exact Hread. unfold run_loader.
      erewrite bind_raises; [done|]. unfold _resolve_pdk_root. by rewrite Hvol.
Qed.

Lemma pdk_root_is_needed_without_volare_witness :
  load bare_outside (InDict ∅) [] None None None None (Some "/design") empty_world =
    ({| heap := ∅; trace := [] ++ [] |},
     inl (ValueError "The pdk_root argument is required as Volare is not installed.")).
Proof.
  apply (pdk_root_is_needed_without_volare bare_outside (InDict ∅) [] None None None
           (Some "/design") empty_world).
  - reflexivity.
  - by eexists.
Defined.

(** ** The keys of [meta] (lines 48-51 and 415) *)

Lemma Meta_fill_spec (entries : list (Value * Value)) : ∀ m,
  is_Some (match Meta_fill entries m with inr m' => Some m' | inl _ => None end) ↔
  Forall (λ kv, kv.1 = VStr "version" ∨ kv.1 = VStr "flow") entries.
Proof.
  induction entries as [|[k v] entries IH]; intros m; simpl.
  - split; [by constructor | by eexists].
  - destruct k as [| | | |s| | |]; simpl;
      try (split; [by intros [? ?] | intros H; apply Forall_cons in H as [[?|?] _]; done]).
    destruct (String.eqb_spec s "version") as [->|Hv].
    { rewrite IH. split; [intros H; constructor; [by left | done]
                         | intros H; by apply Forall_cons in H as [_ ?]]. }
    destruct (String.eqb_spec s "flow") as [->|Hf].
    { rewrite IH. split; [intros H; constructor; [by right | done]
                         | intros H; by apply Forall_cons in H as [_ ?]]. }
    split; [by intros [? ?]|].
    intros H. apply Forall_cons in H as [[E|E] _]; simpl in E; congruence.
Qed.

(** [Meta] takes the keys [version] and [flow] and no other: a [meta]
    dictionary is accepted exactly when all its keys are among these two,
    so any further key makes the whole configuration invalid. *)
Theorem meta_takes_two_keys (h : Heap) (l : loc) (entries : list (Value * Value)) :
  h !! l = Some (ODict entries) →
  (∃ m, Meta_of_raw h (VRef l) = inr m) ↔
  Forall (λ kv, kv.1 = VStr "version" ∨ kv.1 = VStr "flow") entries.
Proof.
  intros Hl. unfold Meta_of_raw. rewrite Hl.
  rewrite <- (Meta_fill_spec entries Meta_default).
  destruct (Meta_fill entries Meta_default) as [e|m]; split.
  - by intros [? ?].
  - by intros [? ?].
  - by eexists.
  - by eexists.
Qed.

Lemma meta_takes_two_keys_witness :
  (∃ m, Meta_of_raw {[ 1%positive := ODict [(VStr "version", VInt 2)] ]}
          (VRef 1%positive) = inr m) ↔
  Forall (λ kv : Value * Value, kv.1 = VStr "version" ∨ kv.1 = VStr "flow")
    [(VStr "version", VInt 2)].
Proof.
  apply (meta_takes_two_keys {[ 1%positive := ODict [(VStr "version", VInt 2)] ]}
           1%positive [(VStr "version", VInt 2)]).
  reflexivity.
Defined.
